(** * hyperverge-cli: a shallow embedding of [hyperverge.js]

    The development follows the source file top to bottom: the helpers on
    paths and strings ([normalisePath], [supportedFileExtensions], [mask]),
    the recursive directory listing ([listFiles]), the upload client
    ([uploadFile]) and the directory branch of the main switch, whose promise
    chain is run on a small model of the JavaScript job queue.

    Strings are [string]; a character is a UTF-16 code unit below 256.
    Names of the source are kept. *)

From Stdlib Require Import String Ascii List Bool Arith ZArith Lia.
Import ListNotations.
Local Open Scope string_scope.
Local Open Scope list_scope.

Set Implicit Arguments.
Set Warnings "-register-all".

(* ===================================================================== *)
(** ** JavaScript strings *)
(* ===================================================================== *)

Module JsString.

Definition chars (s : string) : list ascii := list_ascii_of_string s.
Definition of_chars (l : list ascii) : string := string_of_list_ascii l.

Definition slash : ascii := "/"%char.
Definition dot : ascii := "."%char.
Definition hash : ascii := "#"%char.

(** [str[0] === '/'], also the regular expression [/^\//]. *)
Definition starts_with_slash (s : string) : bool :=
  match s with
  | String c _ => Ascii.eqb c slash
  | EmptyString => false
  end.

(** [str.split(sep)] for a one-character separator: the pieces between
    the separators, the empty string giving one empty piece. *)
Fixpoint split_chars (sep : ascii) (l : list ascii) : list (list ascii) :=
  match l with
  | [] => [[]]
  | c :: r =>
      match split_chars sep r with
      | [] => [[]]
      | h :: t => if Ascii.eqb c sep then [] :: h :: t else (c :: h) :: t
      end
  end.

Definition split (sep : ascii) (s : string) : list string :=
  map of_chars (split_chars sep (chars s)).

(** [pieces.join(sep)]. *)
Fixpoint join (sep : string) (pieces : list string) : string :=
  match pieces with
  | [] => ""
  | [p] => p
  | p :: rest => (p ++ sep ++ join sep rest)%string
  end.

(** Canonicalisation of a code unit under the [i] flag of a regular
    expression without the [u] flag: the upper case of the ASCII letters.
    No code unit outside ASCII canonicalises to an ASCII letter. *)
Definition canonicalize (c : ascii) : ascii :=
  let n := nat_of_ascii c in
  if ((97 <=? n)%nat && (n <=? 122)%nat)%bool then ascii_of_nat (n - 32) else c.

Fixpoint prefix_ci (p l : list ascii) : bool :=
  match p, l with
  | [], _ => true
  | _ :: _, [] => false
  | a :: p', b :: l' =>
      Ascii.eqb (canonicalize a) (canonicalize b) && prefix_ci p' l'
  end.

(** [s] ends with [suffix], letter case ignored. *)
Definition ends_with_ci (suffix s : string) : bool :=
  prefix_ci (rev (chars suffix)) (rev (chars s)).

(** The line terminators, which the regular expression [.] does not
    match: LF and CR (U+2028 and U+2029 are not code units below 256). *)
Definition is_line_terminator (c : ascii) : bool :=
  Ascii.eqb c "010"%char || Ascii.eqb c "013"%char.

Fixpoint take_while (f : ascii -> bool) (l : list ascii) : list ascii :=
  match l with
  | [] => []
  | c :: r => if f c then c :: take_while f r else []
  end.

Fixpoint drop_while (f : ascii -> bool) (l : list ascii) : list ascii :=
  match l with
  | [] => []
  | c :: r => if f c then drop_while f r else l
  end.

Definition is_slash (c : ascii) : bool := Ascii.eqb c slash.
Definition is_dot (c : ascii) : bool := Ascii.eqb c dot.
Definition not_slash (c : ascii) : bool := negb (is_slash c).
Definition not_dot (c : ascii) : bool := negb (is_dot c).

End JsString.
Import JsString.

(* ===================================================================== *)
(** ** Node's [path] module (POSIX) *)
(* ===================================================================== *)

Module NodePath.

(** [path.extname(p)]: trailing slashes are skipped, the last portion of
    the path is taken, and the extension runs from its last [.] to its
    end. The result is empty when the portion has no [.], when its last
    [.] is its first character, and when the portion is [..]. *)
Definition extname (p : string) : string :=
  let rbase := take_while not_slash (drop_while is_slash (rev (chars p))) in
  let rsuffix := take_while not_dot rbase in
  match drop_while not_dot rbase with
  | [] => ""
  | _ :: rprefix =>
      match rprefix, rsuffix with
      | [], _ => ""
      | [d], [] => if is_dot d then "" else of_chars (dot :: rev rsuffix)
      | _, _ => of_chars (dot :: rev rsuffix)
      end
  end.

(** [normalizeString(path, allowAboveRoot)] on the segments of the path:
    empty segments and [.] are dropped, [..] removes the segment before
    it, and is kept (when [allowAboveRoot]) or dropped where there is none
    to remove. [stack] is the result so far, last segment first. *)
Fixpoint normalize_segments (allowAboveRoot : bool) (stack segs : list string)
  : list string :=
  match segs with
  | [] => rev stack
  | s :: r =>
      if String.eqb s "" || String.eqb s "." then
        normalize_segments allowAboveRoot stack r
      else if String.eqb s ".." then
        match stack with
        | top :: below =>
            if String.eqb top ".." then
              normalize_segments allowAboveRoot
                (if allowAboveRoot then ".." :: stack else stack) r
            else normalize_segments allowAboveRoot below r
        | [] =>
            normalize_segments allowAboveRoot
              (if allowAboveRoot then [".."] else []) r
        end
      else normalize_segments allowAboveRoot (s :: stack) r
  end.

Definition normalizeString (p : string) (allowAboveRoot : bool) : string :=
  join "/" (normalize_segments allowAboveRoot [] (split slash p)).

Definition ends_with_slash (p : string) : bool :=
  match rev (chars p) with
  | c :: _ => is_slash c
  | [] => false
  end.

(** [path.normalize(p)]. *)
Definition normalize (p : string) : string :=
  if String.eqb p "" then "."
  else
    let isAbsolute := starts_with_slash p in
    let trailingSeparator := ends_with_slash p in
    let q := normalizeString p (negb isAbsolute) in
    if String.eqb q "" then
      if isAbsolute then "/" else if trailingSeparator then "./" else "."
    else
      let q' := if trailingSeparator then (q ++ "/")%string else q in
      if isAbsolute then ("/" ++ q')%string else q'.

(** [path.join(...args)]: the non-empty arguments joined with [/], then
    normalised. *)
Definition join (args : list string) : string :=
  match filter (fun a => negb (String.eqb a "")) args with
  | [] => "."
  | parts => normalize (JsString.join "/" parts)
  end.

(** The loop of [path.resolve]: arguments are taken from the right until
    an absolute one is met; [args] is given last argument first, and ends
    with the working directory. *)
Fixpoint resolve_loop (args : list string) (resolvedPath : string)
  : string * bool :=
  match args with
  | [] => (resolvedPath, false)
  | p :: r =>
      if String.eqb p "" then resolve_loop r resolvedPath
      else
        let resolvedPath' := (p ++ "/" ++ resolvedPath)%string in
        if starts_with_slash p then (resolvedPath', true)
        else resolve_loop r resolvedPath'
  end.

(** [path.resolve(...args)] in a process whose working directory is
    [cwd]. *)
Definition resolve (cwd : string) (args : list string) : string :=
  let '(resolvedPath, resolvedAbsolute) := resolve_loop (rev args ++ [cwd]) "" in
  let q := normalizeString resolvedPath (negb resolvedAbsolute) in
  if resolvedAbsolute then ("/" ++ q)%string
  else if String.eqb q "" then "." else q.

End NodePath.

(* ===================================================================== *)
(** ** Helpers of [hyperverge.js] *)
(* ===================================================================== *)

(** [availableActions] *)
Definition availableActions : list string :=
  ["test"; "readPAN"; "readPassport"; "readAadhaar"; "readKYC"].

(** [normalisePath(filePath)], in a process whose working directory is
    [cwd]. *)
Definition normalisePath (cwd : string) (filePath : string) : string :=
  if starts_with_slash filePath then filePath
  else NodePath.resolve cwd [cwd; filePath].

(** [supportedFileExtensions = /(gif|jpe?g|tiff|png|pdf)$/i], as the list of
    words the alternation stands for; [supportedFileExtensions_test s] is
    [supportedFileExtensions.test(s)]: the expression is not anchored on the
    left, so it holds when [s] ends with one of the words. *)
Definition supportedFileExtensions : list string :=
  ["gif"; "jpg"; "jpeg"; "tiff"; "png"; "pdf"].

Definition supportedFileExtensions_test (s : string) : bool :=
  existsb (fun w => ends_with_ci w s) supportedFileExtensions.

(** [str.replace(/./g, '#')]: every code unit but the line terminators. *)
Fixpoint replace_any_with_hash (s : string) : string :=
  match s with
  | EmptyString => EmptyString
  | String c r =>
      String (if is_line_terminator c then c else hash) (replace_any_with_hash r)
  end.

(** [str.split('').map((c, idx) => idx < 2 || idx > str.length - 3 ? c : '#').join('')],
    from index [idx] on. *)
Fixpoint mask_chars (len : Z) (idx : Z) (s : string) : string :=
  match s with
  | EmptyString => EmptyString
  | String c r =>
      String (if (idx <? 2)%Z || (len - 3 <? idx)%Z then c else hash)
             (mask_chars len (idx + 1) r)
  end.

(** [mask(str)] *)
Definition mask (str : string) : string :=
  if (Z.of_nat (String.length str) <? 6)%Z then replace_any_with_hash str
  else mask_chars (Z.of_nat (String.length str)) 0 str.

(* ===================================================================== *)
(** ** JavaScript values and the outcome of an upload *)
(* ===================================================================== *)

(** The values that travel through the program: what [JSON.parse] builds,
    [undefined], and (as [JObj]) the error objects of the transport. *)
Inductive JSVal : Type :=
| JUndefined
| JNull
| JBool (b : bool)
| JNum (n : Z)
| JStr (s : string)
| JArr (items : list JSVal)
| JObj (fields : list (string * JSVal)).

(** The truth value of [v] in a condition ([if (data.err)]). *)
Definition truthy (v : JSVal) : bool :=
  match v with
  | JUndefined | JNull => false
  | JBool b => b
  | JNum n => negb (n =? 0)%Z
  | JStr s => negb (String.eqb s "")
  | JArr _ | JObj _ => true
  end.

(** Neither [undefined] nor [null]. *)
Definition present (v : JSVal) : bool :=
  match v with
  | JUndefined | JNull => false
  | _ => true
  end.

Fixpoint get_field (k : string) (fields : list (string * JSVal)) : JSVal :=
  match fields with
  | [] => JUndefined
  | (k', v) :: r => if String.eqb k k' then v else get_field k r
  end.

(** [v[k]] for a name [k] that no prototype defines; [None] is the
    [TypeError] of reading a property of [undefined] or [null]. *)
Definition get_property (v : JSVal) (k : string) : option JSVal :=
  match v with
  | JUndefined | JNull => None
  | JObj fields => Some (get_field k fields)
  | JBool _ | JNum _ | JStr _ | JArr _ => Some JUndefined
  end.

(** The object [uploadFile] resolves with. *)
Record UploadOutcome : Type := mkOutcome {
  o_action : string;
  o_file : string;
  o_status : JSVal;
  o_statusCode : JSVal;
  o_result : JSVal;
  o_err : JSVal
}.

(** [data.err] as a condition: how the callers classify an outcome. *)
Definition err_present (o : UploadOutcome) : bool := truthy (o_err o).

(** A status or a result came back from the service. *)
Definition meaningful (o : UploadOutcome) : bool :=
  present (o_status o) || present (o_result o).

(** The classification invariant of an outcome: [err] present XOR a
    meaningful [status]/[result]. *)
Definition classified (o : UploadOutcome) : bool :=
  xorb (err_present o) (meaningful o).

(* ===================================================================== *)
(** ** The environment of the process *)
(* ===================================================================== *)

(** The destructured [CONFIG]. The credentials are strings by the time the
    switch runs ([mask] has read their [length] and split them). *)
Record Config : Type := mkConfig {
  action : string;
  file : option string;
  directory : option string;
  output : string;
  appKey : string;
  appId : string;
  host : string
}.

(** What the callback of [request] is called with: [err] and [body]
    ([response] is not read). *)
Record Reply : Type := mkReply {
  reply_err : JSVal;
  reply_body : JSVal
}.

(** The file system as [fs.readdirSync] and [fs.statSync] see it ([None]:
    the call throws), and the remote service: the reply to the request made
    for the [idx]-th upload, of file [f]. *)
Record World : Type := mkWorld {
  cwd : string;
  readdirSync : string -> option (list string);
  statSync_isFile : string -> option bool;
  reply : nat -> string -> Reply
}.

(** How a synchronous piece of the program ends. *)
Inductive Completion (A : Type) : Type :=
| Returns (a : A)
| Throws
| Exits (code : nat)
| OutOfFuel.
Arguments Returns {A} a.
Arguments Throws {A}.
Arguments Exits {A} code.
Arguments OutOfFuel {A}.

(** [handleError(code, err, ...rest)] reports and ends in
    [process.exit(code)]. *)
Definition handleError {A : Type} (code : nat) : Completion A := Exits code.

(* ===================================================================== *)
(** ** [listFiles] *)
(* ===================================================================== *)

(** [entryPaths.filter(entryPath => fs.statSync(entryPath).isFile())] *)
Fixpoint filter_isFile (w : World) (entryPaths : list string)
  : option (list string) :=
  match entryPaths with
  | [] => Some []
  | p :: r =>
      match statSync_isFile w p with
      | None => None
      | Some b =>
          match filter_isFile w r with
          | None => None
          | Some l => Some (if b then p :: l else l)
          end
      end
  end.

(** [filePaths.includes(entryPath)] *)
Definition includes (l : list string) (p : string) : bool :=
  existsb (String.eqb p) l.

(** [listFiles(directory)]; [fuel] bounds the depth of the recursion. *)
Fixpoint listFiles (fuel : nat) (w : World) (directory : string)
  : Completion (list string) :=
  match fuel with
  | O => OutOfFuel
  | S fuel' =>
      match readdirSync w directory with
      | None => Throws
      | Some entries =>
          let entryPaths :=
            map (fun entry => NodePath.join [directory; entry]) entries in
          match filter_isFile w entryPaths with
          | None => Throws
          | Some filePaths =>
              let dirPaths :=
                filter (fun entryPath => negb (includes filePaths entryPath))
                       entryPaths in
              let dirFiles :=
                fold_left
                  (fun prev curr =>
                     match prev with
                     | Returns l =>
                         match listFiles fuel' w curr with
                         | Returns l' => Returns (l ++ l')
                         | other => other
                         end
                     | other => other
                     end)
                  dirPaths (Returns []) in
              match dirFiles with
              | Returns dirFiles =>
                  Returns
                    (map (normalisePath (cwd w))
                         (filter supportedFileExtensions_test
                                 (filePaths ++ dirFiles)))
              | other => other
              end
          end
      end
  end.

(* ===================================================================== *)
(** ** [uploadFile] *)
(* ===================================================================== *)

(** [String(v)] of a value that is a string or [undefined]. *)
Definition to_string (v : option string) : string :=
  match v with
  | Some s => s
  | None => "undefined"
  end.

(** [ext = path.extname(file).split('.')[1]] *)
Definition uploadFile_ext (f : string) : option string :=
  nth_error (split dot (NodePath.extname f)) 1.

(** The options [request] is called with. [formField] is the one key of
    [formData], [formFile] the file whose stream it carries. *)
Record Request : Type := mkRequest {
  url : string;
  method : string;
  formField : string;
  formFile : string;
  header_appid : string;
  header_appkey : string;
  header_Accept : string
}.

(** [uploadFile] up to the call of [request]: the checks that end the
    process through [handleError], then the request. *)
Definition uploadFile_request (c : Config) (w : World) (f act : string)
  : Completion Request :=
  let ext := uploadFile_ext f in
  if negb (supportedFileExtensions_test (to_string ext)) then handleError 104
  else
    match statSync_isFile w f with
    | None => handleError 104
    | Some _ =>
        if negb (truthy (JStr (appId c))) || negb (truthy (JStr (appKey c)))
        then handleError 105
        else
          Returns {| url := (host c ++ act)%string;
                     method := "POST";
                     formField := to_string ext;
                     formFile := f;
                     header_appid := appId c;
                     header_appkey := appKey c;
                     header_Accept := "application/json" |}
    end.

(** The callback given to [request]: [body] is destructured, then the
    promise is resolved. [None]: the destructuring throws. *)
Definition request_callback (act f : string) (r : Reply)
  : option UploadOutcome :=
  match get_property (reply_body r) "status",
        get_property (reply_body r) "statusCode",
        get_property (reply_body r) "result" with
  | Some status, Some statusCode, Some result =>
      Some {| o_action := act; o_file := f;
              o_status := status; o_statusCode := statusCode;
              o_result := result; o_err := reply_err r |}
  | _, _, _ => None
  end.

(** One upload from the call of [uploadFile] to the settling of its
    promise, for the [idx]-th request of the run. *)
Definition uploadFile (c : Config) (w : World) (idx : nat) (f act : string)
  : Completion UploadOutcome :=
  match uploadFile_request c w f act with
  | Returns _ =>
      match request_callback act f (reply w idx f) with
      | Some o => Returns o
      | None => Throws
      end
  | Throws => Throws
  | Exits code => Exits code
  | OutOfFuel => OutOfFuel
  end.

(** The object logged at boot, before [JSON.stringify]. *)
Definition of_optional (v : option string) : JSVal :=
  match v with
  | Some s => JStr s
  | None => JUndefined
  end.

Definition bootConfiguration (c : Config) : JSVal :=
  JObj [ ("action", JStr (action c));
         ("file", of_optional (file c));
         ("directory", of_optional (directory c));
         ("output", JStr (output c));
         ("appKey", JStr (mask (appKey c)));
         ("appId", JStr (mask (appId c)));
         ("host", JStr (host c)) ].

(** The line logged at boot; [stringify] is [JSON.stringify(_, null, 2)]
    and [gray] the join and colouring of [chalk.gray]. *)
Definition bootLog (stringify : JSVal -> string) (gray : list string -> string)
  (c : Config) : string :=
  gray ["Booting using configuration:" ++ String "010" ""; stringify (bootConfiguration c)]%string.

(* ===================================================================== *)
(** ** The directory branch on the job queue *)
(* ===================================================================== *)

(** The promise chain of the directory branch is run on a model of the
    promise jobs of JavaScript. The closures of the branch are named by
    [Callback]; a promise is an address in a store; [then] registers a
    reaction or, on a settled promise, queues its job; a callback that
    returns a promise resolves the derived promise through one more job.
    No promise of the branch is ever rejected, so only fulfilment is
    modelled. The requests in flight are completed by the environment, one
    at a time, when the job queue is empty. *)
Module EventLoop.

Definition pid : Type := nat.

Inductive Value : Type :=
| VUndefined
| VData (data : UploadOutcome)
| VPromise (p : pid).

Inductive Callback : Type :=
| CbItem (idx : nat) (f : string)
    (** [() => uploadFile(file, action).then(data => ...)], the function
        given to [acc.then] for the entry [idx] of [files] *)
| CbData (idx : nat) (f : string)
    (** [data => { ... return Promise.resolve(data); }] *)
| CbFlush
    (** [() => { writeResults({errors, results}, output); }] *)
| CbResolve (p : pid)
    (** the resolving function of promise [p] *).

Inductive PromiseState : Type :=
| Pending (reactions : list (Callback * pid))
| Fulfilled (v : Value).

Inductive Job : Type :=
| JReaction (cb : Callback) (derived : pid) (arg : Value)
    (** call [cb(arg)], resolve [derived] with what it returns *)
| JThenable (p : pid) (thenable : pid)
    (** [thenable.then(resolve_p)]: [p] was resolved with a promise *).

Inductive Event : Type :=
| EvUpload (idx : nat) (f : string)
    (** [uploadFile(file, action)] is entered *)
| EvRequest (idx : nat) (req : Request)
    (** [request(...)] is called *)
| EvResolved (idx : nat) (data : UploadOutcome)
    (** the callback of [request] resolves the promise of [uploadFile] *)
| EvWrite (errors results : list UploadOutcome)
    (** [writeResults({errors, results}, output)] *).

Inductive Status : Type :=
| Running
| Exited (code : nat)   (** [process.exit(code)] *)
| Crashed               (** an exception reached the top of the stack *).

Record State : Type := mkState {
  store : pid -> PromiseState;
  next : pid;
  jobs : list Job;
  inflight : list (nat * string * pid);
  results : list UploadOutcome;
  errors : list UploadOutcome;
  trace : list Event;
  status : Status
}.

Definition upd (s : pid -> PromiseState) (p : pid) (ps : PromiseState)
  : pid -> PromiseState :=
  fun q => if Nat.eqb q p then ps else s q.

Definition set_store (s : pid -> PromiseState) (st : State) : State :=
  mkState s (next st) (jobs st) (inflight st) (results st) (errors st)
          (trace st) (status st).
Definition set_jobs (js : list Job) (st : State) : State :=
  mkState (store st) (next st) js (inflight st) (results st) (errors st)
          (trace st) (status st).
Definition set_inflight (l : list (nat * string * pid)) (st : State) : State :=
  mkState (store st) (next st) (jobs st) l (results st) (errors st)
          (trace st) (status st).
Definition set_status (s : Status) (st : State) : State :=
  mkState (store st) (next st) (jobs st) (inflight st) (results st)
          (errors st) (trace st) s.
Definition enqueue (js : list Job) (st : State) : State :=
  set_jobs (jobs st ++ js) st.
Definition log (e : Event) (st : State) : State :=
  mkState (store st) (next st) (jobs st) (inflight st) (results st)
          (errors st) (trace st ++ [e]) (status st).
(** [results.push(data)], [errors.push(data)] *)
Definition push_result (data : UploadOutcome) (st : State) : State :=
  mkState (store st) (next st) (jobs st) (inflight st) (results st ++ [data])
          (errors st) (trace st) (status st).
Definition push_error (data : UploadOutcome) (st : State) : State :=
  mkState (store st) (next st) (jobs st) (inflight st) (results st)
          (errors st ++ [data]) (trace st) (status st).

(** A new promise in state [ps]. *)
Definition alloc (ps : PromiseState) (st : State) : pid * State :=
  (next st,
   mkState (upd (store st) (next st) ps) (S (next st)) (jobs st)
           (inflight st) (results st) (errors st) (trace st) (status st)).

(** [p.then(cb)]: the derived promise, and the reaction registered on a
    pending [p] or queued at once on a fulfilled one. *)
Definition then_ (p : pid) (cb : Callback) (st : State) : pid * State :=
  let '(d, st1) := alloc (Pending []) st in
  match store st1 p with
  | Pending rs => (d, set_store (upd (store st1) p (Pending (rs ++ [(cb, d)]))) st1)
  | Fulfilled v => (d, enqueue [JReaction cb d v] st1)
  end.

(** A pending promise takes the value and its reactions are queued. *)
Definition fulfill (p : pid) (v : Value) (st : State) : State :=
  match store st p with
  | Pending rs =>
      enqueue (map (fun r => JReaction (fst r) (snd r) v) rs)
              (set_store (upd (store st) p (Fulfilled v)) st)
  | Fulfilled _ => st
  end.

(** The resolving function of [p] called with [v]. *)
Definition resolve (p : pid) (v : Value) (st : State) : State :=
  match v with
  | VPromise t => enqueue [JThenable p t] st
  | VUndefined | VData _ => fulfill p v st
  end.

(** [const promises = Promise.resolve()] is the first promise made. *)
Definition promises : pid := 0.

Section Run.

Variable c : Config.
Variable w : World.
Variable files : list string.

(** The body of each callback, called with [arg]. *)
Definition call (cb : Callback) (arg : Value) (st : State) : Value * State :=
  match cb with
  | CbItem idx f =>
      let st1 := log (EvUpload idx f) st in
      match uploadFile_request c w f (action c) with
      | Returns req =>
          let '(q, st2) := alloc (Pending []) st1 in
          let st3 :=
            set_inflight (inflight st2 ++ [(idx, f, q)])
                         (log (EvRequest idx req) st2) in
          let '(r, st4) := then_ q (CbData idx f) st3 in
          (VPromise r, st4)
      | Exits code => (VUndefined, set_status (Exited code) st1)
      | Throws | OutOfFuel => (VUndefined, set_status Crashed st1)
      end
  | CbData idx f =>
      match arg with
      | VData data =>
          let st1 :=
            if err_present data then push_error data st
            else push_result data st in
          let st2 :=
            if Nat.eqb (length (errors st1) + length (results st1))
                       (length files)
            then snd (then_ promises CbFlush st1)
            else st1 in
          let '(s, st3) := alloc (Fulfilled (VData data)) st2 in
          (VPromise s, st3)
      | VUndefined | VPromise _ => (VUndefined, set_status Crashed st)
      end
  | CbFlush => (VUndefined, log (EvWrite (errors st) (results st)) st)
  | CbResolve p => (VUndefined, resolve p arg st)
  end.

Definition run_job (j : Job) (st : State) : State :=
  match j with
  | JReaction cb d arg =>
      let '(ret, st1) := call cb arg st in
      match status st1 with
      | Running => resolve d ret st1
      | Exited _ | Crashed => st1
      end
  | JThenable p t => snd (then_ t (CbResolve p) st)
  end.

(** The callback of the request made for entry [idx] is called with
    the reply of the service. *)
Definition deliver (x : nat * string * pid) (st : State) : State :=
  let '(idx, f, q) := x in
  match request_callback (action c) f (reply w idx f) with
  | Some data => resolve q (VData data) (log (EvResolved idx data) st)
  | None => set_status Crashed st
  end.

Fixpoint remove_nth {A : Type} (k : nat) (l : list A) : list A :=
  match l, k with
  | [], _ => []
  | _ :: r, O => r
  | x :: r, S k' => x :: remove_nth k' r
  end.

(** One turn: the first job of the queue, or, when the queue is empty,
    the completion of one of the requests in flight, picked by
    [choice]. *)
Definition tick (choice : nat) (st : State) : State :=
  match status st with
  | Running =>
      match jobs st with
      | j :: rest => run_job j (set_jobs rest st)
      | [] =>
          match inflight st with
          | [] => st
          | x :: _ =>
              let k := choice mod length (inflight st) in
              deliver (nth k (inflight st) x)
                      (set_inflight (remove_nth k (inflight st)) st)
          end
      end
  | Exited _ | Crashed => st
  end.

Definition run (schedule : list nat) (st : State) : State :=
  fold_left (fun st choice => tick choice st) schedule st.

(** [files.reduce((acc, file, idx) => acc.then(...), promises)] *)
Fixpoint reduce_then (fs : list string) (idx : nat) (acc : pid) (st : State)
  : pid * State :=
  match fs with
  | [] => (acc, st)
  | f :: r =>
      let '(acc', st') := then_ acc (CbItem idx f) st in
      reduce_then r (S idx) acc' st'
  end.

Definition empty : State :=
  mkState (fun _ => Pending []) 0 [] [] [] [] [] Running.

(** The state when the synchronous part of the branch has run:
    [results] and [errors] are empty, [promises] is fulfilled, the chain
    is built. *)
Definition boot : State :=
  let '(p0, st0) := alloc (Fulfilled VUndefined) empty in
  snd (reduce_then files 0 p0 st0).

End Run.

(** What reached the sink: the arguments of the calls of [writeResults]. *)
Fixpoint writes (tr : list Event)
  : list (list UploadOutcome * list UploadOutcome) :=
  match tr with
  | [] => []
  | EvWrite errs ress :: r => (errs, ress) :: writes r
  | _ :: r => writes r
  end.

(** *** The chain read as a loop

    The run of the job queue is compared with this plain loop over the
    files: one upload after the other, the outcome pushed on its list,
    the flush when the two lengths add up to [n], and the end of the
    process where [uploadFile] ends it. *)
Record Observed : Type := mkObserved {
  ob_errors : list UploadOutcome;
  ob_results : list UploadOutcome;
  ob_trace : list Event;
  ob_status : Status
}.

Definition observe (st : State) : Observed :=
  mkObserved (errors st) (results st) (trace st) (status st).

(** The flush of the callback: [writeResults] is called when the two
    lengths add up to [n]. *)
Definition flush_of (n : nat) (errs ress : list UploadOutcome) : list Event :=
  if Nat.eqb (length errs + length ress) n then [EvWrite errs ress] else [].

Fixpoint serial (c : Config) (w : World) (n : nat) (idx : nat)
  (fs : list string) (errs ress : list UploadOutcome) (tr : list Event)
  : Observed :=
  match fs with
  | [] => mkObserved errs ress tr Running
  | f :: r =>
      match uploadFile_request c w f (action c) with
      | Returns req =>
          match request_callback (action c) f (reply w idx f) with
          | Some data =>
              let errs' := if err_present data then errs ++ [data] else errs in
              let ress' := if err_present data then ress else ress ++ [data] in
              serial c w n (S idx) r errs' ress'
                     (tr ++ [EvUpload idx f; EvRequest idx req;
                             EvResolved idx data]
                         ++ flush_of n errs' ress')
          | None =>
              mkObserved errs ress (tr ++ [EvUpload idx f; EvRequest idx req])
                         Crashed
          end
      | Exits code => mkObserved errs ress (tr ++ [EvUpload idx f]) (Exited code)
      | Throws | OutOfFuel =>
          mkObserved errs ress (tr ++ [EvUpload idx f]) Crashed
      end
  end.

(** The reactions registered on the promise [j] of the chain while it is
    pending: the callback of the entry [j], if there is one. *)
Definition chain (files : list string) (j : nat) : list (Callback * pid) :=
  match nth_error files j with
  | Some f => [(CbItem j f, S j)]
  | None => []
  end.

(** The states between two uploads: the entries before [i] are done, the
    job of entry [i] is the only one queued, nothing is in flight. *)
Record Ready (files : list string) (i : nat) (st : State) : Prop := mkReady {
  rd_status : status st = Running;
  rd_inflight : inflight st = [];
  rd_promises : store st promises = Fulfilled VUndefined;
  rd_chain : forall j, i < j -> j <= length files ->
                       store st j = Pending (chain files j);
  rd_next : length files < next st;
  rd_count : length (errors st) + length (results st) = i;
  rd_jobs : exists v,
      jobs st = map (fun r => JReaction (fst r) (snd r) v) (chain files i)
}.

(** Every start of an upload but the first comes after the resolution of
    the upload before it. *)
Definition serial_order (tr : list Event) : Prop :=
  forall k i f,
    nth_error tr k = Some (EvUpload (S i) f) ->
    exists k' data, k' < k /\ nth_error tr k' = Some (EvResolved i data).

(** The uploads started, in the order of their start. *)
Fixpoint uploads (tr : list Event) : list (nat * string) :=
  match tr with
  | [] => []
  | EvUpload idx f :: r => (idx, f) :: uploads r
  | _ :: r => uploads r
  end.

(** The entries of the list with their indices, from [idx] on. *)
Fixpoint indexed (idx : nat) (fs : list string) : list (nat * string) :=
  match fs with
  | [] => []
  | f :: r => (idx, f) :: indexed (S idx) r
  end.

(** Every upload of the list resolves: no file is refused by
    [uploadFile], every reply has a body that can be destructured. *)
Fixpoint resolves_all (c : Config) (w : World) (idx : nat) (fs : list string)
  : bool :=
  match fs with
  | [] => true
  | f :: r =>
      match uploadFile c w idx f (action c) with
      | Returns _ => resolves_all c w (S idx) r
      | Throws | Exits _ | OutOfFuel => false
      end
  end.

(** The states of [reduce] while it builds the chain: [k] entries are
    registered, the accumulator is the promise [k]. *)
Record Building (files : list string) (k : nat) (st : State) : Prop :=
  mkBuilding {
    bd_status : status st = Running;
    bd_inflight : inflight st = [];
    bd_promises : store st promises = Fulfilled VUndefined;
    bd_chain : forall j, 0 < j -> j < k -> store st j = Pending (chain files j);
    bd_acc : 0 < k -> store st k = Pending [];
    bd_next : next st = S k;
    bd_errors : errors st = [];
    bd_results : results st = [];
    bd_trace : trace st = [];
    bd_jobs :
      jobs st = if Nat.eqb k 0 then []
                else map (fun r => JReaction (fst r) (snd r) VUndefined)
                         (chain files 0)
  }.

(** The directory branch: [listFiles], then the chain over what it
    returns; a throw of [listFiles] ends in [handleError(104, ...)]. *)
Definition directoryBranch (c : Config) (w : World) (dir : string)
  (fuel : nat) (schedule : list nat) : Completion State :=
  match listFiles fuel w dir with
  | Returns files => Returns (run c w files schedule (boot files))
  | Throws => handleError 104
  | Exits code => Exits code
  | OutOfFuel => OutOfFuel
  end.

End EventLoop.

(* ===================================================================== *)
(** ** Notions used in the statements, and sample inputs *)
(* ===================================================================== *)

(** Two strings of one length, six at least, with the same first two and
    the same last two characters. *)
Definition same_ends (a b : string) : Prop :=
  String.length a = String.length b /\
  6 <= String.length a /\
  String.get 0 a = String.get 0 b /\
  String.get 1 a = String.get 1 b /\
  String.get (String.length a - 2) a = String.get (String.length a - 2) b /\
  String.get (String.length a - 1) a = String.get (String.length a - 1) b.

(** [s.toLowerCase()] on ASCII. *)
Definition lower_char (c : ascii) : ascii :=
  let n := nat_of_ascii c in
  if ((65 <=? n)%nat && (n <=? 90)%nat)%bool then ascii_of_nat (n + 32) else c.

Definition toLowerCase (s : string) : string :=
  of_chars (map lower_char (chars s)).

(** The extension of a path, lower-cased, without its dot. *)
Definition lowercased_extension (f : string) : string :=
  toLowerCase (of_chars (tl (chars (NodePath.extname f)))).

(** Whether the body of a reply carries a status or a result. *)
Definition body_meaningful (r : Reply) : bool :=
  match get_property (reply_body r) "status",
        get_property (reply_body r) "result" with
  | Some s, Some res => present s || present res
  | _, _ => false
  end.

Module Samples.

Definition LF : ascii := "010"%char.

Definition config : Config :=
  {| action := "readPAN"; file := None; directory := Some "/d";
     output := ""; appKey := "key-0123456789"; appId := "id-012345";
     host := "https://ind-docs.hyperverge.co/v2.0/" |}.

Definition body_success : JSVal :=
  JObj [("status", JStr "success"); ("statusCode", JStr "200");
        ("result", JArr [])].

Definition connection_refused : JSVal :=
  JObj [("code", JStr "ECONNREFUSED")].

(** A directory [/d] with the files [a.png], [mypdf], [scan.PNG] and
    [notes.txt]; every request is answered with a success. *)
Definition readdir (d : string) : option (list string) :=
  if String.eqb d "/d" then Some ["a.png"; "mypdf"; "scan.PNG"; "notes.txt"]
  else None.

Definition is_file (p : string) : option bool :=
  if includes ["/d/a.png"; "/d/scan.PNG"; "/d/mypdf"; "/d/notes.txt"] p
  then Some true
  else if String.eqb p "/d" then Some false else None.

Definition world : World :=
  {| cwd := "/home/u"; readdirSync := readdir; statSync_isFile := is_file;
     reply := fun _ _ => mkReply JNull body_success |}.

(** The same, with a service that cannot be reached: the callback of
    [request] gets the error and no body. *)
Definition world_unreachable : World :=
  {| cwd := "/home/u"; readdirSync := readdir; statSync_isFile := is_file;
     reply := fun _ _ => mkReply connection_refused JUndefined |}.

(** The same, with a service that answers with a page that is not JSON. *)
Definition world_not_json : World :=
  {| cwd := "/home/u"; readdirSync := readdir; statSync_isFile := is_file;
     reply := fun _ _ => mkReply JNull (JStr "<html>Bad Gateway</html>") |}.

Definition body_failure : JSVal :=
  JObj [("status", JStr "failure"); ("statusCode", JStr "400");
        ("error", JStr "Invalid image")].

(** The same, with a service that rejects the first upload: its reply comes
    without an error of the transport and with a body that reports the
    failure. *)
Definition world_first_rejected : World :=
  {| cwd := "/home/u"; readdirSync := readdir; statSync_isFile := is_file;
     reply := fun idx _ =>
                if Nat.eqb idx 0
                then mkReply JNull body_failure
                else mkReply JNull body_success |}.

(** The configuration without an application key. *)
Definition config_without_key : Config :=
  {| action := "readPAN"; file := None; directory := Some "/d";
     output := ""; appKey := ""; appId := "id-012345";
     host := "https://ind-docs.hyperverge.co/v2.0/" |}.

End Samples.

Unset Implicit Arguments.

(* ===================================================================== *)
(** ** The resolution of the configuration *)
(* ===================================================================== *)

(** [CONFIG] while it is built: every value is a string or [undefined]
    (what the command line gives, and what a configuration file is meant
    to hold). *)
Record RawConfig : Type := mkRaw {
  raw_action : option string;
  raw_directory : option string;
  raw_file : option string;
  raw_output : option string;
  raw_appKey : option string;
  raw_appId : option string;
  raw_host : option string
}.

(** [a || b] *)
Definition js_or (a b : option string) : option string :=
  match a with
  | Some s => if String.eqb s "" then b else a
  | None => b
  end.

(** [a && f(a)] *)
Definition js_and (a : option string) (f : string -> string) : option string :=
  match a with
  | Some s => if String.eqb s "" then a else Some (f s)
  | None => None
  end.

(** [CONFIG.x = CONFIG.x || x] for the seven keys. The spread that follows,
    [{action, ..., host, ...CONFIG}], gives the values of [CONFIG] again:
    [CONFIG] has the seven keys as its own. *)
Definition mergeConfig (cli fromFile : RawConfig) : RawConfig :=
  {| raw_action := js_or (raw_action cli) (raw_action fromFile);
     raw_directory := js_or (raw_directory cli) (raw_directory fromFile);
     raw_file := js_or (raw_file cli) (raw_file fromFile);
     raw_output := js_or (raw_output cli) (raw_output fromFile);
     raw_appKey := js_or (raw_appKey cli) (raw_appKey fromFile);
     raw_appId := js_or (raw_appId cli) (raw_appId fromFile);
     raw_host := js_or (raw_host cli) (raw_host fromFile) |}.

Definition defaultHost : string := "https://ind-docs.hyperverge.co/v2.0".

(** [CONFIG.host = CONFIG.host || '<default>';
     CONFIG.host = CONFIG.host[CONFIG.host.length - 1] === '/'
                   ? CONFIG.host : CONFIG.host + '/'] *)
Definition normaliseHost (h : option string) : string :=
  let h1 := match js_or h (Some defaultHost) with
            | Some s => s
            | None => defaultHost
            end in
  if NodePath.ends_with_slash h1 then h1 else (h1 ++ "/")%string.

(** From the values of the command line to the final [CONFIG]. [cliConfig]
    is the path given with [--config]; [load p] is [require(p)], [None] when
    it throws. *)
Definition resolveConfig (wd : string) (load : string -> option RawConfig)
  (cliConfig : option string) (cli : RawConfig) : Completion RawConfig :=
  let merged :=
    match js_or cliConfig None with
    | Some p =>
        match load (NodePath.resolve wd [wd; p]) with
        | Some fromFile => Returns (mergeConfig cli fromFile)
        | None => handleError 102
        end
    | None => Returns cli
    end in
  match merged with
  | Returns m =>
      Returns {| raw_action := raw_action m;
                 raw_directory := js_and (raw_directory m) (normalisePath wd);
                 raw_file := js_and (raw_file m) (normalisePath wd);
                 raw_output := raw_output m;
                 raw_appKey := raw_appKey m;
                 raw_appId := raw_appId m;
                 raw_host := Some (normaliseHost (raw_host m)) |}
  | other => other
  end.

(* ===================================================================== *)
(** ** More notions used in the statements *)
(* ===================================================================== *)

(** The outcomes of the uploads of a list, in its order, as far as they
    resolve. *)
Fixpoint outcomes (c : Config) (w : World) (idx : nat) (fs : list string)
  : list UploadOutcome :=
  match fs with
  | [] => []
  | f :: r =>
      match uploadFile c w idx f (action c) with
      | Returns o => o :: outcomes c w (S idx) r
      | Throws | Exits _ | OutOfFuel => []
      end
  end.

(** The requests made, in the order they were made, each with the index of
    its entry. *)
Fixpoint requests (tr : list EventLoop.Event) : list (nat * Request) :=
  match tr with
  | [] => []
  | EventLoop.EvRequest idx req :: r => (idx, req) :: requests r
  | _ :: r => requests r
  end.

(** An absolute path that passes the test of [listFiles]. *)
Definition discoverable (p : string) : Prop :=
  starts_with_slash p = true /\ supportedFileExtensions_test p = true.

(** [get i s] is shown by [mask] on a string of length [len]. *)
Definition shown (len i : nat) : bool :=
  ((i <? 2)%nat || (len - 2 <=? i)%nat)%bool.

Module Tree.

(** A directory [/in] with a file [a.png], a directory [sub] that holds
    [b.JPG] and [c.txt], and a file [readme.md]. *)
Definition readdir (d : string) : option (list string) :=
  if String.eqb d "/in" then Some ["a.png"; "sub"; "readme.md"]
  else if String.eqb d "/in/sub" then Some ["b.JPG"; "c.txt"]
  else None.

Definition is_file (p : string) : option bool :=
  if includes ["/in/a.png"; "/in/readme.md"; "/in/sub/b.JPG"; "/in/sub/c.txt"] p
  then Some true
  else if includes ["/in"; "/in/sub"] p then Some false else None.

Definition world : World :=
  {| cwd := "/home/u"; readdirSync := readdir; statSync_isFile := is_file;
     reply := fun _ _ => mkReply JNull Samples.body_success |}.

(** The same, with replies that have no body. *)
Definition world_unreachable : World :=
  {| cwd := "/home/u"; readdirSync := readdir; statSync_isFile := is_file;
     reply := fun _ _ => mkReply Samples.connection_refused JUndefined |}.

(** The same, with a directory [/in/sub] that cannot be read. *)
Definition world_locked : World :=
  {| cwd := "/home/u";
     readdirSync := fun d => if String.eqb d "/in/sub" then None else readdir d;
     statSync_isFile := is_file;
     reply := fun _ _ => mkReply JNull Samples.body_success |}.

(** A rendering of the logged object that shows every string it holds. *)
Definition render (v : JSVal) : string :=
  match v with
  | JObj fields =>
      String.concat ", "
        (map (fun kv => (fst kv ++ ": " ++
                         match snd kv with JStr x => x | _ => "-" end)%string)
             fields)
  | _ => ""
  end.

Definition cli : RawConfig :=
  {| raw_action := Some "readKYC"; raw_directory := Some "scans";
     raw_file := None; raw_output := Some ""; raw_appKey := Some "";
     raw_appId := Some ""; raw_host := None |}.

Definition fromFile : RawConfig :=
  {| raw_action := Some "readPAN"; raw_directory := Some "/other";
     raw_file := None; raw_output := Some "out.json";
     raw_appKey := Some "key-0123456789"; raw_appId := Some "id-012345";
     raw_host := Some "https://example.test/v2.0" |}.

Definition load (p : string) : option RawConfig :=
  if String.eqb p "/home/u/config.json" then Some fromFile else None.

End Tree.

(* ===================================================================== *)
(** * Properties *)
(* ===================================================================== *)

(** ** Strings and paths *)

Lemma chars_of_chars (l : list ascii) : chars (of_chars l) = l.
Proof. apply list_ascii_of_string_of_list_ascii. Qed.

Lemma forallb_take_while (f : ascii -> bool) (l : list ascii) :
  forallb f (take_while f l) = true.
Proof.
  induction l as [|a l IH]; simpl; [reflexivity|].
  destruct (f a) eqn:E; simpl; [rewrite E; exact IH | reflexivity].
Qed.

Lemma forallb_rev_true (f : ascii -> bool) (l : list ascii) :
  forallb f l = true -> forallb f (rev l) = true.
Proof.
  rewrite !forallb_forall. intros H x Hx. apply H, in_rev, Hx.
Qed.

Lemma split_chars_no_sep (sep : ascii) (l : list ascii) :
  forallb (fun a => negb (Ascii.eqb a sep)) l = true ->
  split_chars sep l = [l].
Proof.
  induction l as [|a l IH]; simpl; [reflexivity|].
  intros H. apply andb_prop in H as [Ha Hl].
  rewrite (IH Hl). apply negb_true_iff in Ha. rewrite Ha. reflexivity.
Qed.

(** The extension is empty, or a dot followed by characters that are not
    dots. *)
Lemma extname_shape (p : string) :
  NodePath.extname p = "" \/
  exists suffix, NodePath.extname p = of_chars (dot :: suffix)
                 /\ forallb not_dot suffix = true.
Proof.
  unfold NodePath.extname.
  set (rbase := take_while not_slash (drop_while is_slash (rev (chars p)))).
  assert (Hs : forallb not_dot (rev (take_while not_dot rbase)) = true)
    by (apply forallb_rev_true, forallb_take_while).
  destruct (drop_while not_dot rbase) as [|x rprefix]; [now left|].
  destruct rprefix as [|d rprefix]; [now left|].
  destruct rprefix as [|d' rprefix].
  - destruct (take_while not_dot rbase) as [|a rsuffix] eqn:E.
    + destruct (is_dot d); [now left|].
      right. exists []. split; reflexivity.
    + right. eexists. split; [reflexivity | exact Hs].
  - right. destruct (take_while not_dot rbase); eexists; split;
      first [reflexivity | exact Hs].
Qed.

(** The piece after the dot of a well-shaped extension. *)
Lemma uploadFile_ext_cases (f : string) :
  (NodePath.extname f = "" /\ uploadFile_ext f = None) \/
  exists suffix, NodePath.extname f = String dot (of_chars suffix)
                 /\ uploadFile_ext f = Some (of_chars suffix).
Proof.
  unfold uploadFile_ext.
  destruct (extname_shape f) as [E | [suffix [E Hs]]]; rewrite E.
  - left. split; reflexivity.
  - right. exists suffix. split; [reflexivity|].
    unfold split. rewrite chars_of_chars. simpl.
    rewrite (split_chars_no_sep dot suffix Hs).
    reflexivity.
Qed.

Lemma resolve_absolute (cwd p : string) :
  starts_with_slash cwd = true ->
  starts_with_slash (NodePath.resolve cwd [cwd; p]) = true.
Proof.
  intros Hcwd. unfold NodePath.resolve. simpl rev. simpl app.
  assert (Hne : String.eqb cwd "" = false)
    by (destruct cwd; [discriminate | reflexivity]).
  simpl NodePath.resolve_loop. rewrite Hne, Hcwd.
  destruct (String.eqb p ""); [reflexivity|].
  destruct (starts_with_slash p); reflexivity.
Qed.

(** C9. [normalisePath] returns a path that begins with [/] unchanged and
    resolves every other path against the working directory; it is
    idempotent. The working directory of a process is an absolute path. *)
Theorem normalisePath_idempotent (cwd p : string) :
  starts_with_slash cwd = true ->
  (starts_with_slash p = true -> normalisePath cwd p = p) /\
  (starts_with_slash p = false ->
   normalisePath cwd p = NodePath.resolve cwd [cwd; p]) /\
  normalisePath cwd (normalisePath cwd p) = normalisePath cwd p.
Proof.
  intros Hcwd. unfold normalisePath at 1 2.
  repeat split.
  - intros ->. reflexivity.
  - intros ->. reflexivity.
  - unfold normalisePath.
    destruct (starts_with_slash p) eqn:Hp.
    + rewrite Hp. reflexivity.
    + rewrite (resolve_absolute cwd p Hcwd). reflexivity.
Qed.

Lemma normalisePath_idempotent_witness :
  normalisePath "/home/u" "/srv/scans" = "/srv/scans" /\
  normalisePath "/home/u" "scans/../in" = "/home/u/in" /\
  normalisePath "/home/u" (normalisePath "/home/u" "scans/../in")
  = normalisePath "/home/u" "scans/../in".
Proof.
  destruct (normalisePath_idempotent "/home/u" "/srv/scans" eq_refl) as [H1 _].
  destruct (normalisePath_idempotent "/home/u" "scans/../in" eq_refl)
    as [_ [H2 H3]].
  split; [exact (H1 eq_refl)|].
  split; [rewrite (H2 eq_refl); reflexivity | exact H3].
Defined.

(** ** [mask] *)

Lemma mask_chars_agree (len : Z) (s1 : string) :
  forall (s2 : string) (idx : Z),
    String.length s1 = String.length s2 ->
    (forall i : nat,
        i < String.length s1 ->
        (idx + Z.of_nat i < 2 \/ len - 3 < idx + Z.of_nat i)%Z ->
        String.get i s1 = String.get i s2) ->
    mask_chars len idx s1 = mask_chars len idx s2.
Proof.
  induction s1 as [|a s1 IH]; intros [|b s2] idx Hlen Hget;
    try discriminate; [reflexivity|].
  simpl in Hlen. simpl.
  rewrite (IH s2 (idx + 1)%Z).
  - destruct ((idx <? 2)%Z || (len - 3 <? idx)%Z) eqn:E; [|reflexivity].
    assert (H0 : String.get 0 (String a s1) = String.get 0 (String b s2)).
    { apply Hget; [simpl; lia|].
      apply orb_prop in E as [E|E]; [left|right];
        apply Z.ltb_lt in E; lia. }
    simpl in H0. now inversion H0.
  - lia.
  - intros i Hi Hidx.
    change (String.get (S i) (String a s1) = String.get (S i) (String b s2)).
    apply Hget; [simpl; lia | rewrite Nat2Z.inj_succ; lia].
Qed.

(** For credentials of six characters or more, [mask] shows the first two
    and the last two characters and nothing else. *)
Lemma mask_hides_middle (k1 k2 : string) :
  same_ends k1 k2 -> mask k1 = mask k2.
Proof.
  intros (Hlen & H6 & G0 & G1 & G2 & G3).
  unfold mask. rewrite <- Hlen.
  destruct (Z.of_nat (String.length k1) <? 6)%Z eqn:E;
    [apply Z.ltb_lt in E; lia|].
  apply mask_chars_agree; [exact Hlen|].
  intros i Hi [Hlt|Hgt].
  - assert (i = 0 \/ i = 1) as [->| ->] by lia; assumption.
  - assert (i = String.length k1 - 2 \/ i = String.length k1 - 1)
      as [->| ->] by lia; assumption.
Qed.

(** X7. The line logged at boot is the same for two configurations that
    differ only in credentials with the same ends: nothing of the middle of
    a credential of six characters or more reaches the log. *)
Lemma bootLog_hides_middle
  (stringify : JSVal -> string) (gray : list string -> string)
  (act : string) (f d : option string) (out h : string)
  (key1 key2 id1 id2 : string) :
  same_ends key1 key2 -> same_ends id1 id2 ->
  bootLog stringify gray (mkConfig act f d out key1 id1 h)
  = bootLog stringify gray (mkConfig act f d out key2 id2 h).
Proof.
  intros Hk Hi. unfold bootLog, bootConfiguration. simpl.
  rewrite (mask_hides_middle _ _ Hk), (mask_hides_middle _ _ Hi).
  reflexivity.
Qed.

(** X8. A credential shorter than six characters that holds no line
    terminator is logged as hashes only, one for each character. *)
Lemma mask_short_all_hashes (s : string) :
  String.length s < 6 ->
  forallb (fun ch => negb (is_line_terminator ch)) (chars s) = true ->
  mask s = of_chars (repeat hash (String.length s)).
Proof.
  intros Hlen Hs. unfold mask.
  destruct (Z.of_nat (String.length s) <? 6)%Z eqn:E;
    [|apply Z.ltb_ge in E; lia].
  clear Hlen E. induction s as [|a s IH]; [reflexivity|].
  simpl in Hs. apply andb_prop in Hs as [Ha Hs].
  apply negb_true_iff in Ha. simpl. rewrite Ha. unfold of_chars in *.
  simpl. now rewrite <- IH.
Qed.

(** C10. [mask] does not replace every character of a string shorter than
    six characters: a line feed is logged as it is, in its place. For the
    credential [a], line feed, [b] the log shows [#], line feed, [#]. *)
Theorem mask_keeps_line_terminators :
  mask (String "a" (String Samples.LF (String "b" "")))
  = String "#" (String Samples.LF (String "#" "")).
Proof. reflexivity. Qed.

(** ** [uploadFile] *)

Lemma uploadFile_request_inv (c : Config) (w : World) (f act : string)
  (req : Request) :
  uploadFile_request c w f act = Returns req ->
  req = {| url := (host c ++ act)%string; method := "POST";
           formField := to_string (uploadFile_ext f); formFile := f;
           header_appid := appId c; header_appkey := appKey c;
           header_Accept := "application/json" |}
  /\ supportedFileExtensions_test (to_string (uploadFile_ext f)) = true.
Proof.
  unfold uploadFile_request, handleError.
  destruct (supportedFileExtensions_test (to_string (uploadFile_ext f)));
    simpl; [|discriminate].
  destruct (statSync_isFile w f); [|discriminate].
  destruct (negb _ || negb _); [discriminate|].
  intros H. inversion H. split; reflexivity.
Qed.

(** C8 (as amended). The form field that carries the file is named by the
    extension of the file without its dot, in the letter case the path has
    it. *)
Theorem formField_is_extension (c : Config) (w : World) (f act : string)
  (req : Request) :
  uploadFile_request c w f act = Returns req ->
  NodePath.extname f = String dot (formField req) /\ formFile req = f.
Proof.
  intros H. apply uploadFile_request_inv in H as [-> Ht]. simpl.
  split; [|reflexivity].
  destruct (uploadFile_ext_cases f) as [[_ E] | [suffix [E1 E2]]].
  - rewrite E in Ht. discriminate Ht.
  - rewrite E1, E2. reflexivity.
Qed.

Lemma formField_is_extension_witness :
  exists req,
    uploadFile_request Samples.config Samples.world "/d/scan.PNG" "readPAN"
    = Returns req
    /\ NodePath.extname "/d/scan.PNG" = String dot (formField req)
    /\ formFile req = "/d/scan.PNG".
Proof.
  eexists. split; [reflexivity|].
  exact (formField_is_extension Samples.config Samples.world "/d/scan.PNG"
           "readPAN" _ eq_refl).
Defined.

(** C8 fails as stated: the file [/d/scan.PNG] is sent in the field [PNG],
    not [png]. *)
Lemma formField_not_lowercased :
  exists req,
    uploadFile_request Samples.config Samples.world "/d/scan.PNG" "readPAN"
    = Returns req
    /\ formField req = "PNG"
    /\ lowercased_extension "/d/scan.PNG" = "png"
    /\ formField req <> lowercased_extension "/d/scan.PNG".
Proof.
  eexists. split; [reflexivity|].
  split; [reflexivity|]. split; [reflexivity|]. discriminate.
Qed.

(** C7 (as amended). An outcome names the action and the file of the call
    and carries the error of the transport and the [status], [statusCode]
    and [result] of the body as they came. So its [err] is present exactly
    when the transport reported an error, its status or result is meaningful
    exactly when the body carries one, and it is classified exactly when one
    of the two holds and not the other. *)
Theorem outcome_classification (c : Config) (w : World) (idx : nat)
  (f act : string) (o : UploadOutcome) :
  uploadFile c w idx f act = Returns o ->
  (o_action o = act /\ o_file o = f /\
   o_err o = reply_err (reply w idx f) /\
   get_property (reply_body (reply w idx f)) "status" = Some (o_status o) /\
   get_property (reply_body (reply w idx f)) "statusCode"
   = Some (o_statusCode o) /\
   get_property (reply_body (reply w idx f)) "result" = Some (o_result o)) /\
  err_present o = truthy (reply_err (reply w idx f)) /\
  meaningful o = body_meaningful (reply w idx f) /\
  classified o
  = xorb (truthy (reply_err (reply w idx f))) (body_meaningful (reply w idx f)).
Proof.
  unfold uploadFile, request_callback, classified, err_present, meaningful,
    body_meaningful.
  destruct (uploadFile_request c w f act); try discriminate.
  destruct (get_property (reply_body (reply w idx f)) "status");
    [|discriminate].
  destruct (get_property (reply_body (reply w idx f)) "statusCode");
    [|discriminate].
  destruct (get_property (reply_body (reply w idx f)) "result");
    [|discriminate].
  intros H. inversion H. simpl. repeat split.
Qed.

Lemma outcome_classification_witness :
  exists o,
    uploadFile Samples.config Samples.world 0 "/d/a.png" "readPAN" = Returns o
    /\ (o_action o = "readPAN" /\ o_file o = "/d/a.png" /\
        o_err o = JNull /\
        Some (JStr "success") = Some (o_status o) /\
        Some (JStr "200") = Some (o_statusCode o) /\
        Some (JArr []) = Some (o_result o))
    /\ err_present o = false /\ meaningful o = true /\ classified o = true.
Proof.
  eexists. split; [reflexivity|].
  exact (outcome_classification Samples.config Samples.world 0 "/d/a.png"
           "readPAN" _ eq_refl).
Defined.

(** C7 fails as stated: when the service answers with a page that is not
    JSON and the transport reports no error, the outcome has neither an
    [err] nor a status or result. *)
Lemma outcome_not_classified :
  exists o,
    uploadFile Samples.config Samples.world_not_json 0 "/d/a.png" "readPAN"
    = Returns o
    /\ err_present o = false /\ meaningful o = false /\ classified o = false.
Proof.
  eexists. split; [reflexivity|]. repeat split.
Qed.

(** C2. When the service cannot be reached, the callback of [request] is
    called with the error and no body; destructuring the body throws, and
    the promise of [uploadFile] is never resolved: the process ends on the
    exception. *)
Theorem uploadFile_throws_on_transport_error :
  uploadFile Samples.config Samples.world_unreachable 0 "/d/a.png" "readPAN"
  = Throws
  /\ EventLoop.status
       (EventLoop.run Samples.config Samples.world_unreachable ["/d/a.png"]
          [0; 0; 0] (EventLoop.boot ["/d/a.png"]))
     = EventLoop.Crashed.
Proof. split; reflexivity. Qed.

(** ** [listFiles] *)

(** C6. [listFiles] keeps a file whose name only ends with the letters of a
    supported extension: [/d/mypdf] has no extension and is returned, and
    [uploadFile] then refuses it. *)
Theorem listFiles_returns_file_without_extension :
  listFiles 1 Samples.world "/d"
  = Returns ["/d/a.png"; "/d/mypdf"; "/d/scan.PNG"]
  /\ NodePath.extname "/d/mypdf" = ""
  /\ uploadFile_request Samples.config Samples.world "/d/mypdf" "readPAN"
     = Exits 104.
Proof. repeat split. Qed.

(** ** The job queue *)

Module EventLoopFacts.
Import EventLoop.

Lemma upd_eq (s : pid -> PromiseState) (p : pid) (v : PromiseState) :
  upd s p v p = v.
Proof. unfold upd. now rewrite Nat.eqb_refl. Qed.

Lemma upd_ne (s : pid -> PromiseState) (p q : pid) (v : PromiseState) :
  q <> p -> upd s p v q = s q.
Proof. intros H. unfold upd. apply Nat.eqb_neq in H. now rewrite H. Qed.

#[local] Arguments upd : simpl never.

Ltac store_simpl :=
  repeat first [ rewrite upd_eq | rewrite upd_ne by lia ].

Lemma pushed_count (e : bool) (errs ress : list UploadOutcome)
  (o : UploadOutcome) :
  length (if e then errs ++ [o] else errs)
  + length (if e then ress else ress ++ [o])
  = S (length errs + length ress).
Proof. destruct e; rewrite length_app; simpl; lia. Qed.

Section Steps.

Variable c : Config.
Variable w : World.
Variable files : list string.

Variable s : pid -> PromiseState.
Variable nx : pid.
Variable rest : list Job.
Variable infl : list (nat * string * pid).
Variable ress errs : list UploadOutcome.
Variable tr : list Event.
Variable ch : nat.

(** The callback of an entry whose request is made. *)
Lemma tick_item_request (i : nat) (f : string) (d : pid) (v : Value)
  (req : Request) :
  uploadFile_request c w f (action c) = Returns req ->
  tick c w files ch
    (mkState s nx (JReaction (CbItem i f) d v :: rest) infl ress errs tr
             Running)
  = mkState
      (upd (upd (upd s nx (Pending [])) (S nx) (Pending []))
           nx (Pending [(CbData i f, S nx)]))
      (S (S nx)) (rest ++ [JThenable d (S nx)]) (infl ++ [(i, f, nx)])
      ress errs ((tr ++ [EvUpload i f]) ++ [EvRequest i req]) Running.
Proof.
  intros Hreq. unfold tick. cbn. rewrite Hreq. cbn.
  store_simpl. reflexivity.
Qed.

(** The callback of an entry that [uploadFile] refuses. *)
Lemma tick_item_exit (i : nat) (f : string) (d : pid) (v : Value)
  (code : nat) :
  uploadFile_request c w f (action c) = Exits code ->
  tick c w files ch
    (mkState s nx (JReaction (CbItem i f) d v :: rest) infl ress errs tr
             Running)
  = mkState s nx rest infl ress errs (tr ++ [EvUpload i f]) (Exited code).
Proof.
  intros Hreq. unfold tick. cbn. rewrite Hreq. reflexivity.
Qed.

(** A promise resolved with a pending promise waits for it. *)
Lemma tick_thenable_pending (p t : pid) (rs : list (Callback * pid)) :
  s t = Pending rs -> t <> nx ->
  tick c w files ch
    (mkState s nx (JThenable p t :: rest) infl ress errs tr Running)
  = mkState
      (upd (upd s nx (Pending [])) t (Pending (rs ++ [(CbResolve p, nx)])))
      (S nx) rest infl ress errs tr Running.
Proof.
  intros Hs Hne. unfold tick. cbn. store_simpl. rewrite Hs. reflexivity.
Qed.

(** A promise resolved with a fulfilled promise is resolved by a job. *)
Lemma tick_thenable_fulfilled (p t : pid) (v : Value) :
  s t = Fulfilled v -> t <> nx ->
  tick c w files ch
    (mkState s nx (JThenable p t :: rest) infl ress errs tr Running)
  = mkState (upd s nx (Pending [])) (S nx)
            (rest ++ [JReaction (CbResolve p) nx v])
            infl ress errs tr Running.
Proof.
  intros Hs Hne. unfold tick. cbn. store_simpl. rewrite Hs. reflexivity.
Qed.

(** The only request in flight completes with a body that can be
    destructured. *)
Lemma tick_deliver (i : nat) (f : string) (q : pid) (o : UploadOutcome)
  (rs : list (Callback * pid)) :
  request_callback (action c) f (reply w i f) = Some o ->
  s q = Pending rs ->
  tick c w files ch
    (mkState s nx [] [(i, f, q)] ress errs tr Running)
  = mkState (upd s q (Fulfilled (VData o))) nx
            (map (fun r => JReaction (fst r) (snd r) (VData o)) rs)
            [] ress errs (tr ++ [EvResolved i o]) Running.
Proof.
  intros Hcb Hs. unfold tick. cbn [status jobs inflight length].
  rewrite Nat.mod_1_r. cbn. rewrite Hcb. unfold resolve, fulfill. cbn.
  rewrite Hs. reflexivity.
Qed.

(** The only request in flight completes with no body. *)
Lemma tick_deliver_throw (i : nat) (f : string) (q : pid) :
  request_callback (action c) f (reply w i f) = None ->
  tick c w files ch
    (mkState s nx [] [(i, f, q)] ress errs tr Running)
  = mkState s nx [] [] ress errs tr Crashed.
Proof.
  intros Hcb. unfold tick. cbn [status jobs inflight length].
  rewrite Nat.mod_1_r. cbn. rewrite Hcb. reflexivity.
Qed.

(** The callback on the outcome, with entries still to come. *)
Lemma tick_data (i : nat) (f : string) (d : pid) (o : UploadOutcome) :
  S (length errs + length ress) <> length files ->
  tick c w files ch
    (mkState s nx (JReaction (CbData i f) d (VData o) :: rest) infl ress
             errs tr Running)
  = mkState (upd s nx (Fulfilled (VData o))) (S nx)
            (rest ++ [JThenable d nx]) infl
            (if err_present o then ress else ress ++ [o])
            (if err_present o then errs ++ [o] else errs)
            tr Running.
Proof.
  intros Hn. unfold tick. cbn.
  assert (Hc := pushed_count (err_present o) errs ress o).
  destruct (err_present o); cbn in *;
    match goal with
    | |- context [Nat.eqb ?a ?b] => destruct (Nat.eqb_spec a b) as [E|E]
    end; first [lia | reflexivity].
Qed.

(** The callback on the last outcome: the flush is queued. *)
Lemma tick_data_last (i : nat) (f : string) (d : pid) (o : UploadOutcome)
  (v0 : Value) :
  S (length errs + length ress) = length files ->
  s promises = Fulfilled v0 -> promises <> nx ->
  tick c w files ch
    (mkState s nx (JReaction (CbData i f) d (VData o) :: rest) infl ress
             errs tr Running)
  = mkState (upd (upd s nx (Pending [])) (S nx) (Fulfilled (VData o)))
            (S (S nx))
            ((rest ++ [JReaction CbFlush nx v0]) ++ [JThenable d (S nx)])
            infl
            (if err_present o then ress else ress ++ [o])
            (if err_present o then errs ++ [o] else errs)
            tr Running.
Proof.
  intros Hn H0 Hne. unfold tick. cbn.
  assert (Hc := pushed_count (err_present o) errs ress o).
  destruct (err_present o); cbn in *;
    match goal with
    | |- context [Nat.eqb ?a ?b] => destruct (Nat.eqb_spec a b) as [E|E]
    end; try lia; cbn; store_simpl; rewrite H0; reflexivity.
Qed.

(** The flush. *)
Lemma tick_flush (d : pid) (v : Value) (rs : list (Callback * pid)) :
  s d = Pending rs ->
  tick c w files ch
    (mkState s nx (JReaction CbFlush d v :: rest) infl ress errs tr Running)
  = mkState (upd s d (Fulfilled VUndefined)) nx
            (rest ++ map (fun r => JReaction (fst r) (snd r) VUndefined) rs)
            infl ress errs (tr ++ [EvWrite errs ress]) Running.
Proof.
  intros Hs. unfold tick. cbn. unfold fulfill. cbn. rewrite Hs. reflexivity.
Qed.

(** A resolving function called with an outcome. *)
Lemma tick_resolve (p d : pid) (o : UploadOutcome)
  (rs rs' : list (Callback * pid)) :
  s p = Pending rs -> s d = Pending rs' -> d <> p ->
  tick c w files ch
    (mkState s nx (JReaction (CbResolve p) d (VData o) :: rest) infl ress
             errs tr Running)
  = mkState (upd (upd s p (Fulfilled (VData o))) d (Fulfilled VUndefined))
            nx
            ((rest ++ map (fun r => JReaction (fst r) (snd r) (VData o)) rs)
             ++ map (fun r => JReaction (fst r) (snd r) VUndefined) rs')
            infl ress errs tr Running.
Proof.
  intros Hp Hd Hne. unfold tick. cbn. unfold fulfill. cbn.
  rewrite Hp. cbn. store_simpl. rewrite Hd. reflexivity.
Qed.

End Steps.

Section Rounds.

Variable c : Config.
Variable w : World.
Variable files : list string.

Lemma run_app (cs1 cs2 : list nat) (st : State) :
  run c w files (cs1 ++ cs2) st = run c w files cs2 (run c w files cs1 st).
Proof. unfold run. apply fold_left_app. Qed.

Lemma tick_halted (ch : nat) (st : State) :
  status st <> Running -> tick c w files ch st = st.
Proof. unfold tick. destruct (status st); congruence. Qed.

Lemma tick_idle (ch : nat) (st : State) :
  jobs st = [] -> inflight st = [] -> tick c w files ch st = st.
Proof.
  intros Hj Hi. unfold tick. rewrite Hj, Hi. now destruct (status st).
Qed.

Lemma run_halted (cs : list nat) (st : State) :
  status st <> Running -> run c w files cs st = st.
Proof.
  intros H. induction cs as [|ch cs IH]; [reflexivity|].
  simpl. rewrite tick_halted by exact H. exact IH.
Qed.

Lemma run_idle (cs : list nat) (st : State) :
  jobs st = [] -> inflight st = [] -> run c w files cs st = st.
Proof.
  intros Hj Hi. induction cs as [|ch cs IH]; [reflexivity|].
  simpl. rewrite tick_idle by assumption. exact IH.
Qed.

(** One entry whose upload resolves: seven turns, eight with the
    flush, lead from one [Ready] state to the next. *)
Lemma round_resolves (i : nat) (f : string) (req : Request)
  (o : UploadOutcome) (st : State) (cs : list nat) :
  Ready files i st ->
  nth_error files i = Some f ->
  uploadFile_request c w f (action c) = Returns req ->
  request_callback (action c) f (reply w i f) = Some o ->
  length cs = (if Nat.eqb (S i) (length files) then 8 else 7) ->
  let errs' := if err_present o then errors st ++ [o] else errors st in
  let ress' := if err_present o then results st else results st ++ [o] in
  Ready files (S i) (run c w files cs st) /\
  errors (run c w files cs st) = errs' /\
  results (run c w files cs st) = ress' /\
  trace (run c w files cs st)
  = trace st ++ [EvUpload i f; EvRequest i req; EvResolved i o]
             ++ (if Nat.eqb (S i) (length files)
                 then [EvWrite errs' ress'] else []).
Proof.
  intros [Hst Hin H0 Hch Hnx Hcnt [v Hj]] Hf Hreq Hcb Hlen.
  destruct st as [s nx js infl ress errs tr stt].
  cbn [store next jobs inflight results errors trace status] in *.
  subst stt infl js. unfold chain. rewrite Hf.
  cbn [map fst snd]. unfold promises in *.
  assert (Hi : i < length files)
    by (apply nth_error_Some; rewrite Hf; discriminate).
  assert (Hc := pushed_count (err_present o) errs ress o).
  revert Hlen.
  destruct (Nat.eqb_spec (S i) (length files)) as [Elast|Elast]; intros Hlen.
  - do 9 (destruct cs as [|? cs]; cbn in Hlen; try discriminate Hlen).
    match goal with
    | |- context [run c w files ?sch ?st0] =>
        eassert (E : run c w files sch st0 = _)
    end.
    { unfold run. cbn [fold_left].
      rewrite (tick_item_request _ _ _ _ _ _ _ _ _ _ _ _ _ _ _ _ Hreq).
      cbn [app].
      erewrite tick_thenable_pending;
        [ | store_simpl; reflexivity | lia ].
      erewrite tick_deliver; [ | exact Hcb | store_simpl; reflexivity ].
      cbn [app map fst snd].
      erewrite tick_data_last;
        [ | lia | unfold promises; store_simpl; exact H0 | unfold promises; lia ].
      cbn [app].
      erewrite tick_flush; [ | store_simpl; reflexivity ].
      cbn [app map fst snd].
      erewrite tick_thenable_fulfilled;
        [ | store_simpl; reflexivity | lia ].
      cbn [app].
      erewrite tick_resolve;
        [ | store_simpl; reflexivity | store_simpl; reflexivity | lia ].
      cbn [app map fst snd].
      erewrite tick_resolve;
        [ | store_simpl; apply Hch; lia | store_simpl; reflexivity | lia ].
      cbn [app map fst snd]. reflexivity. }
    rewrite E. clear E.
    cbn [store next jobs inflight results errors trace status].
    split; [constructor;
            cbn [store next jobs inflight results errors trace status]|].
    + reflexivity.
    + reflexivity.
    + unfold promises. store_simpl. exact H0.
    + intros j Hj1 Hj2. store_simpl. apply Hch; lia.
    + lia.
    + lia.
    + exists (VData o). rewrite app_nil_r. reflexivity.
    + repeat split. rewrite <- !app_assoc. reflexivity.
  - do 8 (destruct cs as [|? cs]; cbn in Hlen; try discriminate Hlen).
    match goal with
    | |- context [run c w files ?sch ?st0] =>
        eassert (E : run c w files sch st0 = _)
    end.
    { unfold run. cbn [fold_left].
      rewrite (tick_item_request _ _ _ _ _ _ _ _ _ _ _ _ _ _ _ _ Hreq).
      cbn [app].
      erewrite tick_thenable_pending;
        [ | store_simpl; reflexivity | lia ].
      erewrite tick_deliver; [ | exact Hcb | store_simpl; reflexivity ].
      cbn [app map fst snd].
      erewrite tick_data; [ | lia ].
      cbn [app].
      erewrite tick_thenable_fulfilled;
        [ | store_simpl; reflexivity | lia ].
      cbn [app].
      erewrite tick_resolve;
        [ | store_simpl; reflexivity | store_simpl; reflexivity | lia ].
      cbn [app map fst snd].
      erewrite tick_resolve;
        [ | store_simpl; apply Hch; lia | store_simpl; reflexivity | lia ].
      cbn [app map fst snd]. reflexivity. }
    rewrite E. clear E.
    cbn [store next jobs inflight results errors trace status].
    split; [constructor;
            cbn [store next jobs inflight results errors trace status]|].
    + reflexivity.
    + reflexivity.
    + unfold promises. store_simpl. exact H0.
    + intros j Hj1 Hj2. store_simpl. apply Hch; lia.
    + lia.
    + lia.
    + exists (VData o). rewrite app_nil_r. reflexivity.
    + repeat split. rewrite <- !app_assoc. reflexivity.
Qed.


(** An entry that [uploadFile] refuses ends the process at once. *)
Lemma round_exits (i : nat) (f : string) (code : nat) (st : State)
  (ch : nat) (cs : list nat) :
  Ready files i st ->
  nth_error files i = Some f ->
  uploadFile_request c w f (action c) = Exits code ->
  observe (run c w files (ch :: cs) st)
  = mkObserved (errors st) (results st) (trace st ++ [EvUpload i f])
               (Exited code).
Proof.
  intros [Hst Hin H0 Hch Hnx Hcnt [v Hj]] Hf Hreq.
  destruct st as [s nx js infl ress errs tr stt].
  cbn [store next jobs inflight results errors trace status] in *.
  subst stt infl js. unfold chain. rewrite Hf. cbn [map fst snd].
  change (run c w files (ch :: cs) ?x)
    with (run c w files cs (tick c w files ch x)).
  rewrite (tick_item_exit _ _ _ _ _ _ _ _ _ _ _ _ _ _ _ _ Hreq).
  rewrite run_halted by (cbn; discriminate). reflexivity.
Qed.

(** An entry whose reply has no body ends the process on the
    exception, after three turns. *)
Lemma round_throws (i : nat) (f : string) (req : Request) (st : State)
  (c1 c2 c3 : nat) (cs : list nat) :
  Ready files i st ->
  nth_error files i = Some f ->
  uploadFile_request c w f (action c) = Returns req ->
  request_callback (action c) f (reply w i f) = None ->
  observe (run c w files (c1 :: c2 :: c3 :: cs) st)
  = mkObserved (errors st) (results st)
               (trace st ++ [EvUpload i f; EvRequest i req]) Crashed.
Proof.
  intros [Hst Hin H0 Hch Hnx Hcnt [v Hj]] Hf Hreq Hcb.
  destruct st as [s nx js infl ress errs tr stt].
  cbn [store next jobs inflight results errors trace status] in *.
  subst stt infl js. unfold chain. rewrite Hf. cbn [map fst snd].
  change (run c w files (c1 :: c2 :: c3 :: cs) ?x)
    with (run c w files cs
            (tick c w files c3 (tick c w files c2 (tick c w files c1 x)))).
  rewrite (tick_item_request _ _ _ _ _ _ _ _ _ _ _ _ _ _ _ _ Hreq).
  cbn [app].
  erewrite tick_thenable_pending; [ | store_simpl; reflexivity | lia ].
  rewrite (tick_deliver_throw _ _ _ _ _ _ _ _ _ _ _ _ Hcb).
  rewrite run_halted by (cbn; discriminate).
  unfold observe. cbn. rewrite <- app_assoc. reflexivity.
Qed.

Lemma then_pending (s : pid -> PromiseState) (nx : pid) (js : list Job)
  (infl : list (nat * string * pid)) (ress errs : list UploadOutcome)
  (tr : list Event) (stt : Status) (p : pid) (cb : Callback)
  (rs : list (Callback * pid)) :
  s p = Pending rs -> p <> nx ->
  then_ p cb (mkState s nx js infl ress errs tr stt)
  = (nx, mkState (upd (upd s nx (Pending [])) p (Pending (rs ++ [(cb, nx)])))
                 (S nx) js infl ress errs tr stt).
Proof.
  intros Hs Hne. unfold then_. cbn. store_simpl. rewrite Hs. reflexivity.
Qed.

Lemma then_fulfilled (s : pid -> PromiseState) (nx : pid) (js : list Job)
  (infl : list (nat * string * pid)) (ress errs : list UploadOutcome)
  (tr : list Event) (stt : Status) (p : pid) (cb : Callback) (v : Value) :
  s p = Fulfilled v -> p <> nx ->
  then_ p cb (mkState s nx js infl ress errs tr stt)
  = (nx, mkState (upd s nx (Pending [])) (S nx)
                 (js ++ [JReaction cb nx v]) infl ress errs tr stt).
Proof.
  intros Hs Hne. unfold then_. cbn. store_simpl. rewrite Hs. reflexivity.
Qed.

(** [reduce] registers the entries one after the other. *)
Lemma reduce_then_building (fs : list string) :
  forall (k : nat) (st : State),
    Building files k st ->
    (forall j f, nth_error fs j = Some f -> nth_error files (k + j) = Some f) ->
    Building files (k + length fs) (snd (reduce_then fs k k st)).
Proof.
  induction fs as [|f r IH]; intros k st B Hfs.
  - cbn. rewrite Nat.add_0_r. exact B.
  - assert (Hf : nth_error files k = Some f)
      by (rewrite <- (Nat.add_0_r k); apply Hfs; reflexivity).
    destruct B as [Hst Hin H0 Hch Hacc Hnx Herr Hres Htr Hj].
    destruct st as [s nx js infl ress errs tr stt].
    cbn [store next jobs inflight results errors trace status] in *.
    subst. cbn [reduce_then length]. unfold promises in *.
    replace (k + S (length r)) with (S k + length r) by lia.
    destruct k as [|k].
    + rewrite (then_fulfilled _ _ _ _ _ _ _ _ _ _ _ H0) by lia.
      apply IH.
      * constructor;
          cbn [store next jobs inflight results errors trace status];
          try reflexivity; try (intros _; store_simpl; reflexivity).
        -- unfold promises. store_simpl. exact H0.
        -- intros j Hj1 Hj2. lia.
        -- cbn [Nat.eqb app]. unfold chain. rewrite Hf. reflexivity.
      * intros j f' Hj'. replace (1 + j) with (0 + S j) by lia.
        apply Hfs. exact Hj'.
    + rewrite (then_pending _ _ _ _ _ _ _ _ _ _ _ (Hacc ltac:(lia)))
        by lia.
      apply IH.
      * constructor;
          cbn [store next jobs inflight results errors trace status];
          try reflexivity; try (intros _; store_simpl; reflexivity).
        -- unfold promises. store_simpl. exact H0.
        -- intros j Hj1 Hj2. destruct (Nat.eq_dec j (S k)) as [->|Hne].
           ++ store_simpl. unfold chain. rewrite Hf. reflexivity.
           ++ store_simpl. apply Hch; lia.
      * intros j f' Hj'. replace (S (S k) + j) with (S k + S j) by lia.
        apply Hfs. exact Hj'.
Qed.

(** When the synchronous part has run, the first entry is ready. *)
Lemma boot_ready :
  Ready files 0 (boot files) /\
  errors (boot files) = [] /\ results (boot files) = [] /\
  trace (boot files) = [].
Proof.
  unfold boot. cbn [alloc empty next store jobs inflight results errors
                     trace status].
  assert (B0 : Building files 0
                 (mkState (upd (fun _ => Pending []) 0 (Fulfilled VUndefined))
                          1 [] [] [] [] [] Running)).
  { constructor;
      cbn [store next jobs inflight results errors trace status];
      try reflexivity; intros; lia. }
  apply (reduce_then_building files 0) in B0; [|intros j f Hj; exact Hj].
  cbn [Nat.add] in B0.
  destruct B0 as [Hst Hin H0 Hch Hacc Hnx Herr Hres Htr Hj].
  split; [|auto]. constructor; try assumption.
  - intros j Hj1 Hj2. destruct (Nat.eq_dec j (length files)) as [->|Hne].
    + rewrite (Hacc Hj1). unfold chain.
      replace (nth_error files (length files)) with (@None string);
        [reflexivity|].
      symmetry. apply nth_error_None. lia.
    + apply Hch; lia.
  - lia.
  - rewrite Herr, Hres. reflexivity.
  - exists VUndefined. rewrite Hj.
    destruct files as [|f r]; reflexivity.
Qed.


Lemma uploadFile_request_cases (f act : string) :
  (exists req, uploadFile_request c w f act = Returns req) \/
  (exists code, uploadFile_request c w f act = Exits code).
Proof.
  unfold uploadFile_request, handleError.
  destruct (negb (supportedFileExtensions_test _)); [right; eauto|].
  destruct (statSync_isFile w f); [|right; eauto].
  destruct (negb _ || negb _); [right; eauto | left; eauto].
Qed.

Lemma split_schedule (k : nat) (cs : list nat) :
  k <= length cs -> exists a b, cs = a ++ b /\ length a = k.
Proof.
  intros H. exists (firstn k cs), (skipn k cs). split.
  - symmetry. apply firstn_skipn.
  - apply firstn_length_le. exact H.
Qed.

(** The run of the job queue from a [Ready] state, given eight turns
    for each entry left, is the loop over the entries left. *)
Lemma run_from_ready (fs : list string) :
  forall (i : nat) (st : State) (cs : list nat),
    Ready files i st ->
    (forall j f, nth_error fs j = Some f -> nth_error files (i + j) = Some f) ->
    i + length fs = length files ->
    8 * length fs <= length cs ->
    observe (run c w files cs st)
    = serial c w (length files) i fs (errors st) (results st) (trace st).
Proof.
  induction fs as [|f r IH]; intros i st cs R Hfs Hn Hcs.
  - cbn [serial]. cbn [length] in Hn.
    destruct R as [Hst Hin H0 Hch Hnx Hcnt [v Hj]].
    assert (Hnone : chain files i = []).
    { unfold chain.
      replace (nth_error files i) with (@None string); [reflexivity|].
      symmetry. apply nth_error_None. lia. }
    rewrite Hnone in Hj. rewrite run_idle by assumption.
    unfold observe. rewrite Hst. reflexivity.
  - assert (Hf : nth_error files i = Some f)
      by (rewrite <- (Nat.add_0_r i); apply Hfs; reflexivity).
    assert (Hfs' : forall j f', nth_error r j = Some f' ->
                                nth_error files (S i + j) = Some f').
    { intros j f' Hj. replace (S i + j) with (i + S j) by lia.
      apply Hfs. exact Hj. }
    cbn [length] in Hn, Hcs. cbn [serial].
    destruct (uploadFile_request_cases f (action c))
      as [[req Hreq] | [code Hreq]]; rewrite Hreq.
    + destruct (request_callback (action c) f (reply w i f)) as [o|] eqn:Hcb.
      * destruct (split_schedule
                    (if Nat.eqb (S i) (length files) then 8 else 7) cs)
          as (a & b & -> & Ha).
        { destruct (Nat.eqb (S i) (length files)); lia. }
        rewrite run_app.
        destruct (round_resolves i f req o st a R Hf Hreq Hcb Ha)
          as (R' & He & Hr & Ht).
        rewrite (IH (S i) _ b R' Hfs') by
          (try lia; rewrite length_app in Hcs;
           destruct (Nat.eqb (S i) (length files)); lia).
        rewrite He, Hr, Ht. unfold flush_of.
        rewrite pushed_count, (rd_count R). reflexivity.
      * destruct cs as [|c1 [|c2 [|c3 cs]]]; cbn [length] in Hcs; try lia.
        apply round_throws; assumption.
    + destruct cs as [|ch cs]; cbn [length] in Hcs; try lia.
      apply round_exits; assumption.
Qed.

(** The whole run, given eight turns for each entry. *)
Lemma run_boot (cs : list nat) :
  8 * length files <= length cs ->
  observe (run c w files cs (boot files))
  = serial c w (length files) 0 files [] [] [].
Proof.
  intros Hcs. destruct boot_ready as (R & He & Hr & Ht).
  rewrite (run_from_ready files 0 (boot files) cs R); try assumption.
  - rewrite He, Hr, Ht. reflexivity.
  - intros j f Hj. exact Hj.
  - reflexivity.
Qed.

(** *** The trace only grows *)

Lemma trace_then (p : pid) (cb : Callback) (st : State) :
  trace (snd (then_ p cb st)) = trace st.
Proof.
  unfold then_. cbn. destruct (upd _ _ _ p); reflexivity.
Qed.

Lemma trace_fulfill (p : pid) (v : Value) (st : State) :
  trace (fulfill p v st) = trace st.
Proof. unfold fulfill. destruct (store st p); reflexivity. Qed.

Lemma trace_resolve (p : pid) (v : Value) (st : State) :
  trace (resolve p v st) = trace st.
Proof. destruct v; cbn; try apply trace_fulfill; reflexivity. Qed.

Lemma call_trace (cb : Callback) (arg : Value) (st : State) :
  exists suffix, trace (snd (call c w files cb arg st)) = trace st ++ suffix.
Proof.
  destruct cb as [idx f | idx f | | p]; cbn [call].
  - destruct (uploadFile_request c w f (action c)) as [req| |code|];
      try (exists [EvUpload idx f]; reflexivity).
    cbn [alloc].
    match goal with
    | |- context [then_ ?q ?cb ?s0] =>
        pose proof (trace_then q cb s0) as T;
        destruct (then_ q cb s0) as [r st4]
    end.
    cbn [snd] in *. rewrite T. cbn. rewrite <- app_assoc. eauto.
  - destruct arg as [|data|q]; try (exists []; cbn; now rewrite app_nil_r).
    exists []. rewrite app_nil_r. cbn [alloc snd trace].
    destruct (Nat.eqb _ _); [rewrite trace_then|];
      destruct (err_present data); reflexivity.
  - eexists. reflexivity.
  - exists []. cbn [snd]. rewrite trace_resolve, app_nil_r. reflexivity.
Qed.

Lemma tick_trace (ch : nat) (st : State) :
  exists suffix, trace (tick c w files ch st) = trace st ++ suffix.
Proof.
  unfold tick.
  destruct (status st); try (exists []; now rewrite app_nil_r).
  destruct (jobs st) as [|j rest].
  - destruct (inflight st) as [|x l];
      [exists []; now rewrite app_nil_r|].
    destruct (nth _ _ _) as [[idx f] q]. unfold deliver.
    destruct (request_callback _ _ _).
    + rewrite trace_resolve. eexists. reflexivity.
    + exists []. cbn. now rewrite app_nil_r.
  - destruct j as [cb d arg | p t]; cbn [run_job].
    + destruct (call_trace cb arg (set_jobs rest st)) as [suffix T].
      destruct (call c w files cb arg (set_jobs rest st)) as [ret st1].
      cbn [snd] in T.
      destruct (status st1); [rewrite trace_resolve| |]; eauto.
    + rewrite trace_then. exists []. cbn. now rewrite app_nil_r.
Qed.

Lemma run_trace (cs : list nat) :
  forall st, exists suffix,
    trace (run c w files cs st) = trace st ++ suffix.
Proof.
  induction cs as [|ch cs IH]; intros st.
  - exists []. cbn. now rewrite app_nil_r.
  - cbn. destruct (IH (tick c w files ch st)) as [s2 E2].
    destruct (tick_trace ch st) as [s1 E1].
    unfold run in E2. rewrite E2, E1, <- app_assoc. eauto.
Qed.

(** At any time, what has happened is a beginning of what the loop
    does. *)
Lemma run_trace_prefix (cs : list nat) :
  exists suffix,
    ob_trace (serial c w (length files) 0 files [] [] [])
    = trace (run c w files cs (boot files)) ++ suffix.
Proof.
  destruct (run_trace (repeat 0 (8 * length files))
              (run c w files cs (boot files))) as [suffix E].
  exists suffix. rewrite <- E, <- run_app.
  change (trace ?x) with (ob_trace (observe x)).
  rewrite run_boot; [reflexivity|].
  rewrite length_app, repeat_length. lia.
Qed.

End Rounds.

(** *** The loop *)

Lemma writes_app (a b : list Event) : writes (a ++ b) = writes a ++ writes b.
Proof.
  induction a as [|e a IH]; [reflexivity|].
  destruct e; cbn; rewrite IH; reflexivity.
Qed.

Lemma uploads_app (a b : list Event) :
  uploads (a ++ b) = uploads a ++ uploads b.
Proof.
  induction a as [|e a IH]; [reflexivity|].
  destruct e; cbn; rewrite IH; reflexivity.
Qed.

Lemma uploads_nil_nth (l : list Event) (k j : nat) (f : string) :
  uploads l = [] -> nth_error l k <> Some (EvUpload j f).
Proof.
  revert k. induction l as [|e l IH]; intros k H.
  - destruct k; discriminate.
  - destruct e; try discriminate H; destruct k; cbn;
      try discriminate; apply IH; exact H.
Qed.

Section Loop.

Variable c : Config.
Variable w : World.
Variable n : nat.

Lemma serial_resolves (idx : nat) (f : string) (r : list string)
  (errs ress : list UploadOutcome) (tr : list Event) (o : UploadOutcome) :
  uploadFile c w idx f (action c) = Returns o ->
  exists req,
    serial c w n idx (f :: r) errs ress tr
    = serial c w n (S idx) r
        (if err_present o then errs ++ [o] else errs)
        (if err_present o then ress else ress ++ [o])
        (tr ++ [EvUpload idx f; EvRequest idx req; EvResolved idx o]
            ++ flush_of n (if err_present o then errs ++ [o] else errs)
                        (if err_present o then ress else ress ++ [o])).
Proof.
  unfold uploadFile. cbn [serial].
  destruct (uploadFile_request c w f (action c)) as [req| | |];
    try discriminate.
  destruct (request_callback _ _ _) as [o'|]; [|discriminate].
  intros H. inversion H. subst o'. exists req. reflexivity.
Qed.

Lemma serial_exits (idx : nat) (f : string) (r : list string)
  (errs ress : list UploadOutcome) (tr : list Event) (code : nat) :
  uploadFile c w idx f (action c) = Exits code ->
  serial c w n idx (f :: r) errs ress tr
  = mkObserved errs ress (tr ++ [EvUpload idx f]) (Exited code).
Proof.
  unfold uploadFile. cbn [serial].
  destruct (uploadFile_request c w f (action c)) as [req| | |];
    try discriminate.
  - destruct (request_callback _ _ _); discriminate.
  - intros H. inversion H. reflexivity.
Qed.

Lemma serial_stops (idx : nat) (f : string) (r : list string)
  (errs ress : list UploadOutcome) (tr : list Event) :
  (forall o, uploadFile c w idx f (action c) <> Returns o) ->
  exists more st,
    serial c w n idx (f :: r) errs ress tr
    = mkObserved errs ress (tr ++ EvUpload idx f :: more) st
    /\ st <> Running /\ uploads more = [] /\ writes more = [].
Proof.
  unfold uploadFile. cbn [serial]. intros H.
  destruct (uploadFile_request c w f (action c)) as [req| |code|].
  - destruct (request_callback _ _ _) as [o|].
    + now destruct (H o).
    + exists [EvRequest idx req], Crashed. repeat split. discriminate.
  - exists [], Crashed. repeat split. discriminate.
  - exists [], (Exited code). repeat split. discriminate.
  - exists [], Crashed. repeat split. discriminate.
Qed.


Lemma uploads_flush_of (errs ress : list UploadOutcome) :
  uploads (flush_of n errs ress) = [].
Proof. unfold flush_of. destruct (Nat.eqb _ _); reflexivity. Qed.

Lemma serial_writes (fs : list string) :
  forall (idx : nat) (errs ress : list UploadOutcome) (tr : list Event),
    length errs + length ress = idx ->
    idx + length fs = n ->
    let ob := serial c w n idx fs errs ress tr in
    (ob_status ob = Running <-> resolves_all c w idx fs = true) /\
    (ob_status ob = Running ->
     length (ob_errors ob) + length (ob_results ob) = n) /\
    writes (ob_trace ob)
    = writes tr ++
      match fs, ob_status ob with
      | _ :: _, Running => [(ob_errors ob, ob_results ob)]
      | _, _ => []
      end.
Proof.
  induction fs as [|f r IH]; intros idx errs ress tr Hcnt Hn; cbv zeta.
  - cbn in *. rewrite app_nil_r. repeat split; intros; lia.
  - cbn [length] in Hn. cbn [resolves_all].
    destruct (uploadFile c w idx f (action c)) as [o| | |] eqn:U.
    + destruct (serial_resolves idx f r errs ress tr o U) as [req ->].
      pose proof (pushed_count (err_present o) errs ress o) as Hc.
      match goal with
      | |- context [serial c w n (S idx) r ?e ?s ?t] =>
          destruct (IH (S idx) e s t) as (I1 & I2 & I3); [lia | lia | ]
      end.
      split; [exact I1|]. split; [exact I2|].
      rewrite I3, writes_app. cbn [app writes].
      unfold flush_of at 1. rewrite Hc.
      destruct r as [|f' r'].
      * cbn [length] in Hn.
        replace (Nat.eqb (S (length errs + length ress)) n) with true
          by (symmetry; apply Nat.eqb_eq; lia).
        cbn. rewrite app_nil_r. reflexivity.
      * cbn [length] in Hn.
        replace (Nat.eqb (S (length errs + length ress)) n) with false
          by (symmetry; apply Nat.eqb_neq; lia).
        cbn [writes]. rewrite app_nil_r. reflexivity.
    + destruct (serial_stops idx f r errs ress tr) as (more & st & -> & Hs & _ & Hw);
        [intros o; rewrite U; discriminate|].
      cbn [ob_status ob_trace]. rewrite writes_app. cbn [writes].
      rewrite Hw. repeat split; try congruence.
      destruct st; congruence.
    + destruct (serial_stops idx f r errs ress tr) as (more & st & -> & Hs & _ & Hw);
        [intros o; rewrite U; discriminate|].
      cbn [ob_status ob_trace]. rewrite writes_app. cbn [writes].
      rewrite Hw. repeat split; try congruence.
      destruct st; congruence.
    + destruct (serial_stops idx f r errs ress tr) as (more & st & -> & Hs & _ & Hw);
        [intros o; rewrite U; discriminate|].
      cbn [ob_status ob_trace]. rewrite writes_app. cbn [writes].
      rewrite Hw. repeat split; try congruence.
      destruct st; congruence.
Qed.

Lemma serial_order_extend (tr : list Event) (idx : nat) (f : string)
  (more : list Event) :
  serial_order tr ->
  (0 < idx -> exists o, In (EvResolved (idx - 1) o) tr) ->
  uploads more = [] ->
  serial_order (tr ++ EvUpload idx f :: more).
Proof.
  intros Hord Hres Hmore k i f' Hk.
  destruct (Nat.lt_ge_cases k (length tr)) as [Hlt|Hge].
  - rewrite nth_error_app1 in Hk by exact Hlt.
    destruct (Hord k i f' Hk) as (k' & o & Hk' & E).
    exists k', o. split; [exact Hk'|].
    rewrite nth_error_app1 by lia. exact E.
  - rewrite nth_error_app2 in Hk by exact Hge.
    destruct (k - length tr) as [|m] eqn:Em; cbn in Hk.
    + inversion Hk. subst idx f'.
      destruct Hres as [o Ho]; [lia|].
      replace (S i - 1) with i in Ho by lia.
      apply In_nth_error in Ho as [k' Hk'].
      exists k', o.
      assert (k' < length tr)
        by (apply nth_error_Some; rewrite Hk'; discriminate).
      split; [lia|]. rewrite nth_error_app1 by lia. exact Hk'.
    + exfalso. exact (uploads_nil_nth more m (S i) f' Hmore Hk).
Qed.

Lemma serial_trace_order (fs : list string) :
  forall (idx : nat) (errs ress : list UploadOutcome) (tr : list Event),
    serial_order tr ->
    (0 < idx -> exists o, In (EvResolved (idx - 1) o) tr) ->
    serial_order (ob_trace (serial c w n idx fs errs ress tr)).
Proof.
  induction fs as [|f r IH]; intros idx errs ress tr Hord Hres.
  - exact Hord.
  - destruct (uploadFile c w idx f (action c)) as [o| | |] eqn:U.
    + destruct (serial_resolves idx f r errs ress tr o U) as [req ->].
      apply IH.
      * cbn [app]. apply serial_order_extend; try assumption.
        cbn [uploads]. apply uploads_flush_of.
      * intros _. exists o. replace (S idx - 1) with idx by lia.
        apply in_or_app. right. cbn. auto.
    + destruct (serial_stops idx f r errs ress tr) as (more & st & -> & _ & Hu & _);
        [intros o; rewrite U; discriminate|].
      cbn [ob_trace]. apply serial_order_extend; assumption.
    + destruct (serial_stops idx f r errs ress tr) as (more & st & -> & _ & Hu & _);
        [intros o; rewrite U; discriminate|].
      cbn [ob_trace]. apply serial_order_extend; assumption.
    + destruct (serial_stops idx f r errs ress tr) as (more & st & -> & _ & Hu & _);
        [intros o; rewrite U; discriminate|].
      cbn [ob_trace]. apply serial_order_extend; assumption.
Qed.

Lemma serial_uploads (fs : list string) :
  forall (idx : nat) (errs ress : list UploadOutcome) (tr : list Event),
  exists k,
    uploads (ob_trace (serial c w n idx fs errs ress tr))
    = uploads tr ++ firstn k (indexed idx fs).
Proof.
  induction fs as [|f r IH]; intros idx errs ress tr.
  - exists 0. cbn. now rewrite app_nil_r.
  - destruct (uploadFile c w idx f (action c)) as [o| | |] eqn:U.
    + destruct (serial_resolves idx f r errs ress tr o U) as [req ->].
      match goal with
      | |- context [serial c w n (S idx) r ?e ?s ?t] =>
          destruct (IH (S idx) e s t) as [k E]
      end.
      exists (S k). rewrite E, uploads_app. cbn [app uploads].
      rewrite uploads_flush_of, <- app_assoc. reflexivity.
    + destruct (serial_stops idx f r errs ress tr) as (more & st & -> & _ & Hu & _);
        [intros o; rewrite U; discriminate|].
      exists 1. cbn [ob_trace]. rewrite uploads_app. cbn. now rewrite Hu.
    + destruct (serial_stops idx f r errs ress tr) as (more & st & -> & _ & Hu & _);
        [intros o; rewrite U; discriminate|].
      exists 1. cbn [ob_trace]. rewrite uploads_app. cbn. now rewrite Hu.
    + destruct (serial_stops idx f r errs ress tr) as (more & st & -> & _ & Hu & _);
        [intros o; rewrite U; discriminate|].
      exists 1. cbn [ob_trace]. rewrite uploads_app. cbn. now rewrite Hu.
Qed.

Lemma serial_all (fs : list string) :
  forall (idx : nat) (errs ress : list UploadOutcome) (tr : list Event),
    resolves_all c w idx fs = true ->
    let ob := serial c w n idx fs errs ress tr in
    ob_status ob = Running /\
    uploads (ob_trace ob) = uploads tr ++ indexed idx fs /\
    incl errs (ob_errors ob) /\ incl ress (ob_results ob) /\
    (forall j f o,
        nth_error fs j = Some f ->
        uploadFile c w (idx + j) f (action c) = Returns o ->
        if err_present o then In o (ob_errors ob)
        else In o (ob_results ob)).
Proof.
  induction fs as [|f r IH]; intros idx errs ress tr Hall; cbv zeta.
  - cbn. rewrite app_nil_r.
    repeat split; try apply incl_refl.
    intros [|j] f o Hj; discriminate Hj.
  - cbn [resolves_all] in Hall.
    destruct (uploadFile c w idx f (action c)) as [o| | |] eqn:U;
      try discriminate Hall.
    destruct (serial_resolves idx f r errs ress tr o U) as [req ->].
    match goal with
    | |- context [serial c w n (S idx) r ?e ?s ?t] =>
        destruct (IH (S idx) e s t Hall) as (I1 & I2 & I3 & I4 & I5)
    end.
    split; [exact I1|]. split.
    { rewrite I2, uploads_app. cbn [app uploads indexed].
      rewrite uploads_flush_of, <- app_assoc. reflexivity. }
    split.
    { intros x Hx. apply I3. destruct (err_present o); [|exact Hx].
      apply in_or_app. now left. }
    split.
    { intros x Hx. apply I4. destruct (err_present o); [exact Hx|].
      apply in_or_app. now left. }
    intros [|j] f' o' Hj Hu.
    + cbn in Hj. inversion Hj. subst f'.
      rewrite Nat.add_0_r, U in Hu. inversion Hu. subst o'.
      destruct (err_present o) eqn:E.
      * apply I3. apply in_or_app. right. now left.
      * apply I4. apply in_or_app. right. now left.
    + cbn in Hj. apply (I5 j f' o' Hj).
      replace (S idx + j) with (idx + S j) by lia. exact Hu.
Qed.

Lemma serial_first_exit (fs : list string) :
  forall (idx : nat) (errs ress : list UploadOutcome) (tr : list Event)
         (i : nat) (f : string) (code : nat),
    nth_error fs i = Some f ->
    resolves_all c w idx (firstn i fs) = true ->
    uploadFile c w (idx + i) f (action c) = Exits code ->
    length errs + length ress = idx ->
    idx + length fs = n ->
    let ob := serial c w n idx fs errs ress tr in
    ob_status ob = Exited code /\
    uploads (ob_trace ob) = uploads tr ++ indexed idx (firstn (S i) fs) /\
    writes (ob_trace ob) = writes tr /\
    length (ob_errors ob) + length (ob_results ob) = idx + i.
Proof.
  induction fs as [|f0 r IH];
    intros idx errs ress tr i f code Hi Hall Hex Hcnt Hn; cbv zeta.
  - destruct i; discriminate Hi.
  - cbn [length] in Hn. destruct i as [|i].
    + cbn in Hi. inversion Hi. subst f0.
      rewrite Nat.add_0_r in Hex.
      rewrite (serial_exits idx f r errs ress tr code Hex).
      cbn [ob_status ob_trace ob_errors ob_results firstn indexed].
      rewrite uploads_app, writes_app. cbn. rewrite app_nil_r.
      repeat split. lia.
    + cbn [nth_error] in Hi. cbn [firstn resolves_all] in Hall.
      destruct (uploadFile c w idx f0 (action c)) as [o| | |] eqn:U;
        try discriminate Hall.
      destruct (serial_resolves idx f0 r errs ress tr o U) as [req ->].
      pose proof (pushed_count (err_present o) errs ress o) as Hc.
      assert (Hlen : i < length r)
        by (apply nth_error_Some; rewrite Hi; discriminate).
      match goal with
      | |- context [serial c w n (S idx) r ?e ?s ?t] =>
          destruct (IH (S idx) e s t i f code Hi Hall) as (I1 & I2 & I3 & I4);
          [ replace (S idx + i) with (idx + S i) by lia; exact Hex
          | lia | lia | ]
      end.
      split; [exact I1|]. split.
      { rewrite I2, uploads_app. cbn [app uploads indexed firstn].
        rewrite uploads_flush_of, <- app_assoc. reflexivity. }
      split; [|lia].
      rewrite I3, writes_app. cbn [app writes].
      unfold flush_of. rewrite Hc.
      replace (Nat.eqb (S (length errs + length ress)) n) with false
        by (symmetry; apply Nat.eqb_neq; lia).
      cbn. now rewrite app_nil_r.
Qed.

End Loop.
End EventLoopFacts.

Import EventLoop EventLoopFacts.

Lemma serial_order_prefix (a b : list Event) :
  serial_order (a ++ b) -> serial_order a.
Proof.
  intros H k i f Hk.
  assert (Hlt : k < length a) by (apply nth_error_Some; rewrite Hk; discriminate).
  destruct (H k i f) as (k' & o & Hk' & E).
  - rewrite nth_error_app1 by exact Hlt. exact Hk.
  - exists k', o. split; [exact Hk'|].
    rewrite nth_error_app1 in E by lia. exact E.
Qed.

Lemma firstn_prefix {A : Type} (a b l : list A) (k : nat) :
  a ++ b = firstn k l -> a = firstn (length a) l.
Proof.
  intros H.
  assert (Hk : length a <= k).
  { pose proof (f_equal (@length A) H) as L.
    rewrite length_app, length_firstn in L. lia. }
  assert (Ha : firstn (length a) (a ++ b) = a)
    by (rewrite firstn_app, firstn_all, Nat.sub_diag; cbn; apply app_nil_r).
  rewrite <- Ha at 1. rewrite H, firstn_firstn. f_equal. lia.
Qed.

(** The causes of the two exit codes of [uploadFile]. *)
Lemma uploadFile_exits_104 (c : Config) (w : World) (idx : nat)
  (f act : string) :
  supportedFileExtensions_test (to_string (uploadFile_ext f)) = false \/
  statSync_isFile w f = None ->
  uploadFile c w idx f act = Exits 104.
Proof.
  unfold uploadFile, uploadFile_request, handleError.
  destruct (supportedFileExtensions_test _); cbn [negb];
    [|reflexivity].
  intros [H|H]; [discriminate H|]. rewrite H. reflexivity.
Qed.

Lemma uploadFile_exits_105 (c : Config) (w : World) (idx : nat)
  (f act : string) :
  supportedFileExtensions_test (to_string (uploadFile_ext f)) = true ->
  statSync_isFile w f <> None ->
  appId c = "" \/ appKey c = "" ->
  uploadFile c w idx f act = Exits 105.
Proof.
  unfold uploadFile, uploadFile_request, handleError. cbn [truthy].
  intros -> Hs Hc. cbn [negb].
  destruct (statSync_isFile w f); [|congruence].
  destruct Hc as [-> | ->]; cbn; [reflexivity|].
  now rewrite orb_true_r.
Qed.

(** C1. In the directory branch the only trigger of the write is the test
    [errors.length + results.length === files.length], made in the callback
    of each upload after its push. At any time of any run at most one
    [BatchResult] has been written, and a written one has
    [|errors| + |results| = n]; when every upload of a non-empty list
    resolves, the test holds after the last push and the [BatchResult] is
    written exactly once, with all the outcomes. *)
Theorem batch_emits_once (c : Config) (w : World) (files : list string)
  (cs : list nat) :
  let st := run c w files cs (boot files) in
  length (writes (trace st)) <= 1 /\
  (forall errs ress,
      In (errs, ress) (writes (trace st)) ->
      length errs + length ress = length files) /\
  (files <> [] ->
   resolves_all c w 0 files = true ->
   8 * length files <= length cs ->
   writes (trace st) = [(errors st, results st)] /\
   length (errors st) + length (results st) = length files).
Proof.
  cbv zeta.
  destruct (serial_writes c w (length files) files 0 [] [] [] eq_refl eq_refl)
    as (S1 & S2 & S3).
  cbv zeta in S1, S2, S3. cbn [writes app] in S3.
  destruct (run_trace_prefix c w files cs) as [suffix E].
  split; [|split].
  - pose proof (f_equal (fun t => length (writes t)) E) as L.
    cbn beta in L. rewrite S3, writes_app, length_app in L.
    match type of L with
    | length ?W = _ =>
        assert (HW : length W <= 1)
          by (destruct files; [cbn; lia | destruct (ob_status _); cbn; lia])
    end.
    lia.
  - intros errs ress Hin.
    assert (Hin' : In (errs, ress)
                      (writes (ob_trace (serial c w (length files) 0 files
                                                [] [] []))))
      by (rewrite E, writes_app; apply in_or_app; now left).
    rewrite S3 in Hin'. destruct files as [|f r]; [destruct Hin'|].
    destruct (ob_status _) eqn:Hs; cbn in Hin'; try contradiction.
    destruct Hin' as [Hin'|[]]. inversion Hin'. subst errs ress.
    apply S2. reflexivity.
  - intros Hne Hall Hcs.
    pose proof (run_boot c w files cs Hcs) as B.
    apply S1 in Hall.
    assert (Ht : trace (run c w files cs (boot files))
                 = ob_trace (serial c w (length files) 0 files [] [] []))
      by (rewrite <- B; reflexivity).
    assert (He : errors (run c w files cs (boot files))
                 = ob_errors (serial c w (length files) 0 files [] [] []))
      by (rewrite <- B; reflexivity).
    assert (Hr : results (run c w files cs (boot files))
                 = ob_results (serial c w (length files) 0 files [] [] []))
      by (rewrite <- B; reflexivity).
    rewrite Ht, He, Hr, S3, Hall. split; [|apply S2; exact Hall].
    destruct files; [congruence | reflexivity].
Qed.

(** C5. At any time of any run of the directory branch, whatever the
    environment does, the upload of the entry [i+1] has started only after
    the upload of the entry [i] was resolved, and the uploads started so far
    are the first entries of the list, in its order. *)
Theorem uploads_are_serial (c : Config) (w : World) (files : list string)
  (cs : list nat) :
  let tr := trace (run c w files cs (boot files)) in
  serial_order tr /\ exists k, uploads tr = firstn k (indexed 0 files).
Proof.
  cbv zeta. destruct (run_trace_prefix c w files cs) as [suffix E]. split.
  - apply serial_order_prefix with (b := suffix). rewrite <- E.
    apply serial_trace_order.
    + intros [|k] i f H; discriminate H.
    + intros H. lia.
  - destruct (serial_uploads c w (length files) files 0 [] [] []) as [k U].
    rewrite E, uploads_app in U. cbn [uploads app] in U.
    eexists. eapply firstn_prefix. exact U.
Qed.

(** C3. With an empty list of files nothing is ever written: [reduce] never
    calls its callback, the test of completion is never made, and the
    process comes to rest with no job queued and no request in flight. *)
Theorem empty_directory_writes_nothing (c : Config) (w : World)
  (cs : list nat) :
  let st := run c w [] cs (boot []) in
  writes (trace st) = [] /\ status st = Running /\
  jobs st = [] /\ inflight st = [].
Proof.
  cbv zeta. rewrite run_idle by reflexivity. repeat split.
Qed.

(** C4 (as amended). Given the turns the run needs: when every upload
    resolves, the batch goes through the whole list and every outcome is
    recorded, in [errors] when its [err] is set and in [results] otherwise,
    whatever the outcomes before it. When [uploadFile] refuses an entry the
    process ends there: with code 104 when the extension does not pass the
    test or the file cannot be stat-ed, with code 105 when these pass and a
    credential is missing; the entries after it are not attempted, nothing
    is recorded for it and nothing is written. *)
Theorem batch_item_failures (c : Config) (w : World) (files : list string)
  (cs : list nat) :
  8 * length files <= length cs ->
  let st := run c w files cs (boot files) in
  (resolves_all c w 0 files = true ->
   status st = Running /\
   uploads (trace st) = indexed 0 files /\
   forall i f o,
     nth_error files i = Some f ->
     uploadFile c w i f (action c) = Returns o ->
     if err_present o then In o (errors st) else In o (results st)) /\
  (forall i f,
      nth_error files i = Some f ->
      resolves_all c w 0 (firstn i files) = true ->
      (supportedFileExtensions_test (to_string (uploadFile_ext f)) = false \/
       statSync_isFile w f = None ->
       status st = Exited 104 /\
       uploads (trace st) = indexed 0 (firstn (S i) files) /\
       writes (trace st) = [] /\
       length (errors st) + length (results st) = i) /\
      (supportedFileExtensions_test (to_string (uploadFile_ext f)) = true ->
       statSync_isFile w f <> None ->
       appId c = "" \/ appKey c = "" ->
       status st = Exited 105 /\
       uploads (trace st) = indexed 0 (firstn (S i) files) /\
       writes (trace st) = [] /\
       length (errors st) + length (results st) = i)).
Proof.
  intros Hcs. cbv zeta.
  pose proof (run_boot c w files cs Hcs) as B.
  assert (Hs : status (run c w files cs (boot files))
               = ob_status (serial c w (length files) 0 files [] [] []))
    by (rewrite <- B; reflexivity).
  assert (Ht : trace (run c w files cs (boot files))
               = ob_trace (serial c w (length files) 0 files [] [] []))
    by (rewrite <- B; reflexivity).
  assert (He : errors (run c w files cs (boot files))
               = ob_errors (serial c w (length files) 0 files [] [] []))
    by (rewrite <- B; reflexivity).
  assert (Hr : results (run c w files cs (boot files))
               = ob_results (serial c w (length files) 0 files [] [] []))
    by (rewrite <- B; reflexivity).
  rewrite Hs, Ht, He, Hr. split.
  - intros Hall.
    destruct (serial_all c w (length files) files 0 [] [] [] Hall)
      as (A1 & A2 & _ & _ & A5).
    split; [exact A1|]. split; [exact A2|]. exact A5.
  - intros i f Hi Hall. split.
    + intros Hcause.
      exact (serial_first_exit c w (length files) files 0 [] [] [] i f 104
               Hi Hall (uploadFile_exits_104 c w i f (action c) Hcause)
               eq_refl eq_refl).
    + intros Hext Hstat Hcred.
      exact (serial_first_exit c w (length files) files 0 [] [] [] i f 105
               Hi Hall
               (uploadFile_exits_105 c w i f (action c) Hext Hstat Hcred)
               eq_refl eq_refl).
Qed.

Lemma batch_emits_once_witness :
  let files := ["/d/a.png"; "/d/scan.PNG"] in
  let st := run Samples.config Samples.world_first_rejected files (repeat 0 16)
                (boot files) in
  writes (trace st) = [(errors st, results st)] /\
  length (errors st) + length (results st) = 2.
Proof.
  cbv zeta.
  destruct (batch_emits_once Samples.config Samples.world_first_rejected
              ["/d/a.png"; "/d/scan.PNG"] (repeat 0 16)) as (_ & _ & H).
  apply H; [discriminate | reflexivity | apply Nat.leb_le; reflexivity].
Defined.

(** Three runs of the program: the service rejects the first file and the
    batch goes on to the second one, the rejected outcome in [results]; the
    second of three files has no extension and the process ends there with
    code 104; the application key is missing and the process ends at the
    first file with code 105. *)
Lemma batch_item_failures_witness :
  (let files := ["/d/a.png"; "/d/scan.PNG"] in
   let st := run Samples.config Samples.world_first_rejected files
                 (repeat 0 16) (boot files) in
   status st = Running /\
   uploads (trace st) = [(0, "/d/a.png"); (1, "/d/scan.PNG")] /\
   In (mkOutcome "readPAN" "/d/a.png" (JStr "failure") (JStr "400")
                 JUndefined JNull)
      (results st)) /\
  (let files := ["/d/a.png"; "/d/mypdf"; "/d/scan.PNG"] in
   let st := run Samples.config Samples.world files (repeat 0 24)
                 (boot files) in
   status st = Exited 104 /\
   uploads (trace st) = [(0, "/d/a.png"); (1, "/d/mypdf")] /\
   writes (trace st) = [] /\
   length (errors st) + length (results st) = 1) /\
  (let files := ["/d/a.png"; "/d/scan.PNG"] in
   let st := run Samples.config_without_key Samples.world files (repeat 0 16)
                 (boot files) in
   status st = Exited 105 /\
   uploads (trace st) = [(0, "/d/a.png")] /\
   writes (trace st) = [] /\
   length (errors st) + length (results st) = 0).
Proof.
  cbv zeta. split; [|split].
  - destruct (batch_item_failures Samples.config Samples.world_first_rejected
                ["/d/a.png"; "/d/scan.PNG"] (repeat 0 16)
                (proj1 (Nat.leb_le 16 16) eq_refl)) as [A _].
    destruct (A eq_refl) as (H1 & H2 & H3).
    split; [exact H1|]. split; [exact H2|].
    exact (H3 0 "/d/a.png" _ eq_refl eq_refl).
  - destruct (batch_item_failures Samples.config Samples.world
                ["/d/a.png"; "/d/mypdf"; "/d/scan.PNG"] (repeat 0 24)
                (proj1 (Nat.leb_le 24 24) eq_refl)) as [_ B].
    destruct (B 1 "/d/mypdf" eq_refl eq_refl) as [B104 _].
    exact (B104 (or_introl eq_refl)).
  - destruct (batch_item_failures Samples.config_without_key Samples.world
                ["/d/a.png"; "/d/scan.PNG"] (repeat 0 16)
                (proj1 (Nat.leb_le 16 16) eq_refl)) as [_ B].
    destruct (B 0 "/d/a.png" eq_refl eq_refl) as [_ B105].
    apply (B105 eq_refl); [discriminate | right; reflexivity].
Defined.

(** C4 fails as stated: in the sample directory the second file found,
    [/d/mypdf], is refused by [uploadFile]; the process ends there with code
    104, the third file is never attempted, nothing is recorded in [errors]
    and nothing is written. *)
Lemma batch_item_failure_is_fatal :
  exists st,
    directoryBranch Samples.config Samples.world "/d" 1 (repeat 0 24)
    = Returns st
    /\ status st = Exited 104
    /\ uploads (trace st) = [(0, "/d/a.png"); (1, "/d/mypdf")]
    /\ errors st = []
    /\ length (results st) = 1
    /\ writes (trace st) = [].
Proof.
  eexists. split; [reflexivity|]. repeat split.
Qed.

(* ===================================================================== *)
(** * Further properties *)
(* ===================================================================== *)

(** ** Paths and discovery *)

(** X1. In a process whose working directory is absolute, [normalisePath]
    returns an absolute path for every path it is given, also for the empty
    one. *)
Theorem normalisePath_absolute (wd p : string) :
  starts_with_slash wd = true ->
  starts_with_slash (normalisePath wd p) = true.
Proof.
  intros Hwd. unfold normalisePath.
  destruct (starts_with_slash p) eqn:Hp; [exact Hp|].
  apply resolve_absolute. exact Hwd.
Qed.

Lemma normalisePath_absolute_witness :
  starts_with_slash (normalisePath "/home/u" "") = true /\
  starts_with_slash (normalisePath "/home/u" "../scans/x.png") = true.
Proof.
  split.
  - exact (normalisePath_absolute "/home/u" "" eq_refl).
  - exact (normalisePath_absolute "/home/u" "../scans/x.png" eq_refl).
Defined.

Lemma starts_with_slash_app (a b : string) :
  starts_with_slash a = true -> starts_with_slash (a ++ b) = true.
Proof. destruct a; [discriminate | intros H; exact H]. Qed.

Lemma join_absolute (d e : string) :
  starts_with_slash d = true ->
  starts_with_slash (NodePath.join [d; e]) = true.
Proof.
  intros Hd. unfold NodePath.join.
  assert (Hne : String.eqb d "" = false)
    by (destruct d; [discriminate | reflexivity]).
  cbn [filter]. rewrite Hne. cbn [negb].
  assert (N : forall q, starts_with_slash q = true ->
                        starts_with_slash (NodePath.normalize q) = true).
  { intros q Hq. unfold NodePath.normalize.
    assert (Hq' : String.eqb q "" = false)
      by (destruct q; [discriminate | reflexivity]).
    rewrite Hq', Hq.
    destruct (String.eqb (NodePath.normalizeString q (negb true)) "");
      reflexivity. }
  destruct (negb (String.eqb e "")); apply N.
  - cbn [JsString.join]. apply starts_with_slash_app. exact Hd.
  - exact Hd.
Qed.

Lemma filter_isFile_incl (w : World) (l : list string) :
  forall fl, filter_isFile w l = Some fl -> incl fl l.
Proof.
  induction l as [|p r IH]; intros fl H; cbn in H.
  - inversion H. apply incl_refl.
  - destruct (statSync_isFile w p) as [b|]; [|discriminate].
    destruct (filter_isFile w r) as [l'|]; [|discriminate].
    inversion H. destruct b.
    + intros x [->|Hx]; [now left | right; exact (IH l' eq_refl x Hx)].
    + intros x Hx. right. exact (IH l' eq_refl x Hx).
Qed.

(** The accumulator of [dirPaths.reduce]. *)
Lemma reduce_listFiles_stuck (step : string -> Completion (list string))
  (dirs : list string) (other : Completion (list string)) :
  (forall l, other <> Returns l) ->
  fold_left
    (fun prev curr =>
       match prev with
       | Returns l =>
           match step curr with
           | Returns l' => Returns (l ++ l')
           | o => o
           end
       | o => o
       end) dirs other = other.
Proof.
  intros H. induction dirs as [|d r IH]; [reflexivity|].
  cbn. destruct other; try exact IH. now destruct (H a).
Qed.

Lemma reduce_listFiles_returns (step : string -> Completion (list string))
  (dirs : list string) :
  forall acc res,
    fold_left
      (fun prev curr =>
         match prev with
         | Returns l =>
             match step curr with
             | Returns l' => Returns (l ++ l')
             | o => o
             end
         | o => o
         end) dirs (Returns acc) = Returns res ->
    exists subs,
      Forall2 (fun d l => step d = Returns l) dirs subs /\
      res = acc ++ concat subs.
Proof.
  induction dirs as [|d r IH]; intros acc res H; cbn in H.
  - inversion H. exists []. split; [constructor | cbn; now rewrite app_nil_r].
  - destruct (step d) as [l'| | |] eqn:E;
      try (rewrite reduce_listFiles_stuck in H by discriminate; discriminate).
    destruct (IH _ _ H) as (subs & F & ->).
    exists (l' :: subs). split; [constructor; assumption|].
    cbn. now rewrite app_assoc.
Qed.

Lemma listFiles_inv (fuel : nat) (w : World) (d : string) (l : list string) :
  listFiles (S fuel) w d = Returns l ->
  exists entries filePaths subs,
    readdirSync w d = Some entries /\
    filter_isFile w (map (fun e => NodePath.join [d; e]) entries)
    = Some filePaths /\
    Forall2 (fun sub r => listFiles fuel w sub = Returns r)
            (filter (fun p => negb (includes filePaths p))
                    (map (fun e => NodePath.join [d; e]) entries))
            subs /\
    l = map (normalisePath (cwd w))
            (filter supportedFileExtensions_test (filePaths ++ concat subs)).
Proof.
  cbn [listFiles].
  destruct (readdirSync w d) as [entries|]; [|discriminate].
  destruct (filter_isFile w _) as [filePaths|] eqn:F; [|discriminate].
  match goal with
  | |- context [fold_left ?f ?ds (Returns [])] =>
      destruct (fold_left f ds (Returns [])) as [res| | |] eqn:R;
        try discriminate
  end.
  intros H. inversion H.
  apply reduce_listFiles_returns in R as (subs & F2 & ->).
  exists entries, filePaths, subs. repeat split; assumption.
Qed.

Lemma map_normalisePath_absolute (wd : string) (l : list string) :
  Forall (fun p => starts_with_slash p = true) l ->
  map (normalisePath wd) l = l.
Proof.
  induction 1 as [|p r Hp _ IH]; [reflexivity|].
  cbn. rewrite IH. unfold normalisePath. now rewrite Hp.
Qed.

Lemma Forall_concat {A : Type} (P : A -> Prop) (ll : list (list A)) :
  Forall (Forall P) ll -> Forall P (concat ll).
Proof.
  induction 1 as [|l r Hl _ IH]; [constructor|].
  cbn. apply Forall_app. split; assumption.
Qed.

Lemma listFiles_discoverable (fuel : nat) :
  forall (w : World) (d : string) (l : list string),
    starts_with_slash d = true ->
    listFiles fuel w d = Returns l ->
    Forall discoverable l.
Proof.
  induction fuel as [|fuel IH]; intros w d l Hd H; [discriminate H|].
  apply listFiles_inv in H
    as (entries & filePaths & subs & _ & F & F2 & ->).
  assert (Habs : Forall (fun p => starts_with_slash p = true)
                        (map (fun e => NodePath.join [d; e]) entries)).
  { apply Forall_forall. intros p Hp. apply in_map_iff in Hp as (e & <- & _).
    apply join_absolute. exact Hd. }
  assert (Hall : Forall (fun p => starts_with_slash p = true)
                        (filePaths ++ concat subs)).
  { apply Forall_app. split.
    - apply Forall_forall. intros p Hp.
      exact (proj1 (Forall_forall _ _) Habs p (filter_isFile_incl _ _ _ F p Hp)).
    - apply Forall_concat.
      assert (Hdirs : Forall (fun p => starts_with_slash p = true)
                        (filter (fun p => negb (includes filePaths p))
                           (map (fun e => NodePath.join [d; e]) entries))).
      { apply Forall_forall. intros p Hp. apply filter_In in Hp as [Hp _].
        exact (proj1 (Forall_forall _ _) Habs p Hp). }
      clear F Habs. induction F2 as [|sub r dirs rs Hsub _ IH2];
        [constructor|].
      inversion Hdirs; subst. constructor; [|apply IH2; assumption].
      eapply Forall_impl; [|exact (IH w sub r ltac:(assumption) Hsub)].
      intros p [Hp _]. exact Hp. }
  rewrite map_normalisePath_absolute.
  - apply Forall_forall. intros p Hp. apply filter_In in Hp as [Hp Ht].
    split; [|exact Ht]. exact (proj1 (Forall_forall _ _) Hall p Hp).
  - apply Forall_forall. intros p Hp. apply filter_In in Hp as [Hp _].
    exact (proj1 (Forall_forall _ _) Hall p Hp).
Qed.

(** X2. Called on an absolute directory, [listFiles] returns only absolute
    paths that pass the test of [supportedFileExtensions]: whatever the
    directory tree holds, a path that does not end with one of the supported
    words is never returned. *)
Theorem listFiles_returns_discoverable (fuel : nat) (w : World)
  (d : string) (l : list string) :
  starts_with_slash d = true ->
  listFiles fuel w d = Returns l ->
  forall p, In p l ->
            starts_with_slash p = true /\ supportedFileExtensions_test p = true.
Proof.
  intros Hd H p Hp.
  exact (proj1 (Forall_forall _ _) (listFiles_discoverable fuel w d l Hd H) p Hp).
Qed.

Lemma listFiles_returns_discoverable_witness :
  listFiles 2 Tree.world "/in" = Returns ["/in/a.png"; "/in/sub/b.JPG"] /\
  starts_with_slash "/in/sub/b.JPG" = true /\
  supportedFileExtensions_test "/in/sub/b.JPG" = true.
Proof.
  split; [reflexivity|].
  exact (listFiles_returns_discoverable 2 Tree.world "/in"
           ["/in/a.png"; "/in/sub/b.JPG"] eq_refl eq_refl
           "/in/sub/b.JPG" (or_intror (or_introl eq_refl))).
Defined.

Lemma filter_all_true {A : Type} (f : A -> bool) (l : list A) :
  Forall (fun x => f x = true) l -> filter f l = l.
Proof.
  induction 1 as [|x r Hx _ IH]; [reflexivity|]. cbn. now rewrite Hx, IH.
Qed.

(** X3. The listing of an absolute directory is made of its own files that
    pass the test, in the order of the directory, followed by the listings
    of its subdirectories, in that order: the filter and the normalisation
    applied again at each level leave the deeper listings as they are. *)
Theorem listFiles_files_then_directories (fuel : nat) (w : World)
  (d : string) (l : list string) :
  starts_with_slash d = true ->
  listFiles (S fuel) w d = Returns l ->
  exists entries filePaths subs,
    readdirSync w d = Some entries /\
    filter_isFile w (map (fun e => NodePath.join [d; e]) entries)
    = Some filePaths /\
    Forall2 (fun sub r => listFiles fuel w sub = Returns r)
            (filter (fun p => negb (includes filePaths p))
                    (map (fun e => NodePath.join [d; e]) entries))
            subs /\
    l = filter supportedFileExtensions_test filePaths ++ concat subs.
Proof.
  intros Hd H.
  pose proof (listFiles_discoverable (S fuel) w d l Hd H) as D.
  apply listFiles_inv in H
    as (entries & filePaths & subs & E & F & F2 & ->).
  exists entries, filePaths, subs. repeat split; try assumption.
  assert (Hsubs : Forall discoverable (concat subs)).
  { apply Forall_concat.
    assert (Hdirs : Forall (fun p => starts_with_slash p = true)
                      (filter (fun p => negb (includes filePaths p))
                         (map (fun e => NodePath.join [d; e]) entries))).
    { apply Forall_forall. intros p Hp. apply filter_In in Hp as [Hp _].
      apply in_map_iff in Hp as (e & <- & _). apply join_absolute. exact Hd. }
    clear F D. induction F2 as [|sub r dirs rs Hsub _ IH2]; [constructor|].
    inversion Hdirs; subst. constructor; [|apply IH2; assumption].
    exact (listFiles_discoverable fuel w sub r ltac:(assumption) Hsub). }
  assert (Hfiles : Forall (fun p => starts_with_slash p = true) filePaths).
  { apply Forall_forall. intros p Hp.
    apply (filter_isFile_incl _ _ _ F) in Hp.
    apply in_map_iff in Hp as (e & <- & _). apply join_absolute. exact Hd. }
  rewrite filter_app.
  rewrite (filter_all_true _ (concat subs))
    by (eapply Forall_impl; [|exact Hsubs]; intros p [_ Ht]; exact Ht).
  apply map_normalisePath_absolute. apply Forall_app. split.
  - apply Forall_forall. intros p Hp. apply filter_In in Hp as [Hp _].
    exact (proj1 (Forall_forall _ _) Hfiles p Hp).
  - eapply Forall_impl; [|exact Hsubs]. intros p [Ha _]. exact Ha.
Qed.

Lemma listFiles_files_then_directories_witness :
  exists entries filePaths subs,
    readdirSync Tree.world "/in" = Some entries /\
    filter_isFile Tree.world (map (fun e => NodePath.join ["/in"; e]) entries)
    = Some filePaths /\
    Forall2 (fun sub r => listFiles 1 Tree.world sub = Returns r)
            (filter (fun p => negb (includes filePaths p))
                    (map (fun e => NodePath.join ["/in"; e]) entries))
            subs /\
    ["/in/a.png"; "/in/sub/b.JPG"]
    = filter supportedFileExtensions_test filePaths ++ concat subs.
Proof.
  exact (listFiles_files_then_directories 1 Tree.world "/in"
           ["/in/a.png"; "/in/sub/b.JPG"] eq_refl eq_refl).
Defined.

(** ** [mask] *)

Lemma replace_any_with_hash_length (s : string) :
  String.length (replace_any_with_hash s) = String.length s.
Proof. induction s as [|a s IH]; [reflexivity|]. cbn. now rewrite IH. Qed.

Lemma mask_chars_length (len : Z) (s : string) :
  forall idx, String.length (mask_chars len idx s) = String.length s.
Proof.
  induction s as [|a s IH]; intros idx; [reflexivity|]. cbn. now rewrite IH.
Qed.

(** X4. [mask] keeps the length of the string: the log shows how long a
    credential is. *)
Theorem mask_length (s : string) :
  String.length (mask s) = String.length s.
Proof.
  unfold mask. destruct (_ <? 6)%Z.
  - apply replace_any_with_hash_length.
  - apply mask_chars_length.
Qed.

Lemma replace_any_with_hash_idempotent (s : string) :
  replace_any_with_hash (replace_any_with_hash s) = replace_any_with_hash s.
Proof.
  induction s as [|a s IH]; [reflexivity|].
  cbn. rewrite IH. destruct (is_line_terminator a) eqn:E.
  - now rewrite E.
  - reflexivity.
Qed.

Lemma mask_chars_idempotent (len : Z) (s : string) :
  forall idx,
    mask_chars len idx (mask_chars len idx s) = mask_chars len idx s.
Proof.
  induction s as [|a s IH]; intros idx; [reflexivity|].
  cbn. rewrite IH. destruct ((idx <? 2)%Z || (len - 3 <? idx)%Z); reflexivity.
Qed.

(** X5. [mask] is idempotent: masking a masked string changes nothing. *)
Theorem mask_idempotent (s : string) : mask (mask s) = mask s.
Proof.
  unfold mask at 1. rewrite mask_length. unfold mask.
  destruct (_ <? 6)%Z.
  - apply replace_any_with_hash_idempotent.
  - apply mask_chars_idempotent.
Qed.

Lemma mask_chars_get (len : Z) (s : string) :
  forall (idx : Z) (i : nat),
    i < String.length s ->
    String.get i (mask_chars len idx s)
    = if ((idx + Z.of_nat i <? 2)%Z || (len - 3 <? idx + Z.of_nat i)%Z)%bool
      then String.get i s else Some hash.
Proof.
  induction s as [|a s IH]; intros idx i Hi; [cbn in Hi; lia|].
  destruct i as [|i].
  - cbn [mask_chars String.get Z.of_nat]. rewrite Z.add_0_r.
    destruct ((idx <? 2)%Z || (len - 3 <? idx)%Z); reflexivity.
  - cbn [mask_chars String.get]. cbn in Hi.
    rewrite (IH (idx + 1)%Z i) by lia.
    replace (idx + 1 + Z.of_nat i)%Z with (idx + Z.of_nat (S i))%Z
      by (rewrite Nat2Z.inj_succ; lia).
    reflexivity.
Qed.

(** X6. Of a string of six characters or more, [mask] shows the first two
    and the last two characters as they are and a [#] at every other
    position. *)
Theorem mask_shows_ends (s : string) (i : nat) :
  6 <= String.length s ->
  i < String.length s ->
  String.get i (mask s)
  = if shown (String.length s) i then String.get i s else Some hash.
Proof.
  intros H6 Hi. unfold mask.
  destruct (Z.of_nat (String.length s) <? 6)%Z eqn:E;
    [apply Z.ltb_lt in E; lia|].
  rewrite mask_chars_get by exact Hi. unfold shown.
  replace ((0 + Z.of_nat i <? 2)%Z) with (i <? 2)%nat.
  - replace ((Z.of_nat (String.length s) - 3 <? 0 + Z.of_nat i)%Z)
      with (String.length s - 2 <=? i)%nat; [reflexivity|].
    destruct (Nat.leb_spec (String.length s - 2) i);
      symmetry; [apply Z.ltb_lt | apply Z.ltb_ge]; lia.
  - destruct (Nat.ltb_spec i 2); symmetry;
      [apply Z.ltb_lt | apply Z.ltb_ge]; lia.
Qed.

Lemma mask_shows_ends_witness :
  String.get 1 (mask "key-0123456789") = Some "e"%char /\
  String.get 2 (mask "key-0123456789") = Some "#"%char /\
  String.get 12 (mask "key-0123456789") = Some "8"%char.
Proof.
  pose proof (mask_shows_ends "key-0123456789") as H.
  split; [|split].
  - exact (H 1 (proj1 (Nat.leb_le 6 14) eq_refl) (proj1 (Nat.ltb_lt 1 14) eq_refl)).
  - exact (H 2 (proj1 (Nat.leb_le 6 14) eq_refl) (proj1 (Nat.ltb_lt 2 14) eq_refl)).
  - exact (H 12 (proj1 (Nat.leb_le 6 14) eq_refl) (proj1 (Nat.ltb_lt 12 14) eq_refl)).
Defined.

Lemma same_ends_sample :
  same_ends "key-0123456789" "keXXXXXXXXXX89" /\
  same_ends "id-012345" "id-----45".
Proof.
  split; repeat split; try reflexivity; apply Nat.leb_le; reflexivity.
Defined.

Lemma mask_short_all_hashes_witness : mask "k-01" = "####".
Proof.
  exact (mask_short_all_hashes "k-01" (proj1 (Nat.ltb_lt 4 6) eq_refl) eq_refl).
Defined.

(** ** [uploadFile] *)

(** X9. A file whose name has no extension (no dot in its last portion, or
    only a leading one) is refused by [uploadFile] with exit code 104,
    whatever the file system and the credentials are. *)
Theorem uploadFile_without_extension_exits (c : Config) (w : World)
  (f act : string) :
  NodePath.extname f = "" ->
  uploadFile_request c w f act = Exits 104.
Proof.
  intros He. unfold uploadFile_request.
  destruct (uploadFile_ext_cases f) as [[_ E] | [suffix [E1 _]]].
  - rewrite E. reflexivity.
  - rewrite He in E1. discriminate E1.
Qed.

Lemma uploadFile_without_extension_exits_witness :
  uploadFile_request Samples.config Samples.world "/d/.bashrc" "readPAN"
  = Exits 104.
Proof.
  exact (uploadFile_without_extension_exits Samples.config Samples.world
           "/d/.bashrc" "readPAN" eq_refl).
Defined.

Lemma eqb_empty_false (s : string) : String.eqb s "" = false <-> s <> "".
Proof. apply String.eqb_neq. Qed.

(** X10. [uploadFile] makes the request exactly when the extension passes
    the test, the file can be stat-ed and both credentials are non-empty.
    Otherwise it ends the process: with code 104 when the extension or the
    file is at fault, whatever the credentials are, and with code 105 only
    when the credentials alone are. *)
Theorem uploadFile_request_guard (c : Config) (w : World) (f act : string) :
  let ext_ok := supportedFileExtensions_test (to_string (uploadFile_ext f)) in
  ((exists req, uploadFile_request c w f act = Returns req) <->
   ext_ok = true /\ statSync_isFile w f <> None /\
   appId c <> "" /\ appKey c <> "") /\
  (uploadFile_request c w f act = Exits 104 <->
   ext_ok = false \/ statSync_isFile w f = None) /\
  (uploadFile_request c w f act = Exits 105 <->
   ext_ok = true /\ statSync_isFile w f <> None /\
   (appId c = "" \/ appKey c = "")).
Proof.
  cbv zeta. unfold uploadFile_request, handleError. cbn [truthy].
  destruct (supportedFileExtensions_test (to_string (uploadFile_ext f)));
    cbn [negb].
  - destruct (statSync_isFile w f) as [b|].
    + destruct (String.eqb_spec (appId c) "") as [Ei|Ei];
        destruct (String.eqb_spec (appKey c) "") as [Ek|Ek]; cbn;
        repeat split; intros; try discriminate; try congruence;
        repeat match goal with
               | H : exists _, _ |- _ => destruct H
               | H : _ /\ _ |- _ => destruct H
               | H : _ \/ _ |- _ => destruct H
               end;
        try discriminate; try congruence; eauto.
    + repeat split; intros; try discriminate; try congruence;
        repeat match goal with
               | H : exists _, _ |- _ => destruct H
               | H : _ /\ _ |- _ => destruct H
               | H : _ \/ _ |- _ => destruct H
               end;
        try discriminate; try congruence; eauto.
  - repeat split; intros; try discriminate; try congruence;
      repeat match goal with
             | H : exists _, _ |- _ => destruct H
             | H : _ /\ _ |- _ => destruct H
             | H : _ \/ _ |- _ => destruct H
             end;
      try discriminate; try congruence; eauto.
Qed.

(** X11. The promise of [uploadFile] is resolved exactly when the request
    is made and the reply has a body that is neither [undefined] nor
    [null]; the outcome then names the action and the file of the call and
    carries the error of the transport as it came. *)
Theorem uploadFile_resolves_iff (c : Config) (w : World) (idx : nat)
  (f act : string) :
  ((exists o, uploadFile c w idx f act = Returns o) <->
   (exists req, uploadFile_request c w f act = Returns req) /\
   present (reply_body (reply w idx f)) = true) /\
  (forall o, uploadFile c w idx f act = Returns o ->
             o_action o = act /\ o_file o = f /\
             o_err o = reply_err (reply w idx f)).
Proof.
  unfold uploadFile, request_callback.
  destruct (uploadFile_request c w f act) as [req| |code|].
  - destruct (reply_body (reply w idx f)); cbn; split;
      try (split; [intros [o H]; discriminate H | intros [_ H]; discriminate H]);
      try (split; [intros _; split; [eauto | reflexivity] | intros _; eauto]);
      intros o H; inversion H; repeat split; discriminate.
  - split; [split; [intros [o H]; discriminate H
                   | intros [[r H] _]; discriminate H]
           | intros o H; discriminate H].
  - split; [split; [intros [o H]; discriminate H
                   | intros [[r H] _]; discriminate H]
           | intros o H; discriminate H].
  - split; [split; [intros [o H]; discriminate H
                   | intros [[r H] _]; discriminate H]
           | intros o H; discriminate H].
Qed.

(** ** The configuration *)

Lemma chars_app (a b : string) : chars (a ++ b) = chars a ++ chars b.
Proof.
  unfold chars. induction a as [|x a IH]; [reflexivity|].
  cbn. now rewrite IH.
Qed.

Lemma ends_with_slash_app_slash (s : string) :
  NodePath.ends_with_slash (s ++ "/") = true.
Proof.
  unfold NodePath.ends_with_slash. rewrite chars_app, rev_app_distr.
  reflexivity.
Qed.

Lemma ends_with_slash_nonempty (s : string) :
  NodePath.ends_with_slash s = true -> String.eqb s "" = false.
Proof. destruct s; [discriminate | reflexivity]. Qed.

Lemma normaliseHost_ends_with_slash (h : option string) :
  NodePath.ends_with_slash (normaliseHost h) = true.
Proof.
  unfold normaliseHost. cbv zeta.
  set (h1 := match js_or h (Some defaultHost) with
             | Some s => s
             | None => defaultHost
             end).
  destruct (NodePath.ends_with_slash h1) eqn:E; [exact E|].
  apply ends_with_slash_app_slash.
Qed.

Lemma normaliseHost_stable (s : string) :
  NodePath.ends_with_slash s = true -> normaliseHost (Some s) = s.
Proof.
  intros H. unfold normaliseHost, js_or.
  rewrite (ends_with_slash_nonempty s H), H. reflexivity.
Qed.

(** X12. Whatever the command line and the configuration file give, the
    host of the resolved configuration is a string that ends with [/], and
    resolving it once more would leave it as it is: the URL of a request,
    [host + action], always has the action as its last segment. *)
Theorem resolveConfig_host (wd : string) (load : string -> option RawConfig)
  (cliConfig : option string) (cli r : RawConfig) :
  resolveConfig wd load cliConfig cli = Returns r ->
  exists h, raw_host r = Some h /\
            NodePath.ends_with_slash h = true /\
            normaliseHost (Some h) = h.
Proof.
  unfold resolveConfig, handleError. intros H.
  assert (E : exists m, r = {| raw_action := raw_action m;
                               raw_directory := js_and (raw_directory m) (normalisePath wd);
                               raw_file := js_and (raw_file m) (normalisePath wd);
                               raw_output := raw_output m;
                               raw_appKey := raw_appKey m;
                               raw_appId := raw_appId m;
                               raw_host := Some (normaliseHost (raw_host m)) |}).
  { destruct (js_or cliConfig None) as [p|].
    - destruct (load _) as [ff|]; [|discriminate H].
      injection H as <-. exists (mergeConfig cli ff). reflexivity.
    - injection H as <-. exists cli. reflexivity. }
  destruct E as [m ->]. cbn [raw_host]. eexists. split; [reflexivity|].
  split; [apply normaliseHost_ends_with_slash|].
  apply normaliseHost_stable, normaliseHost_ends_with_slash.
Qed.

Lemma resolveConfig_host_witness :
  exists r,
    resolveConfig "/home/u" Tree.load (Some "config.json") Tree.cli = Returns r
    /\ exists h, raw_host r = Some h /\
                 NodePath.ends_with_slash h = true /\
                 normaliseHost (Some h) = h.
Proof.
  eexists. split; [reflexivity|].
  exact (resolveConfig_host "/home/u" Tree.load (Some "config.json")
           Tree.cli _ eq_refl).
Defined.

Lemma js_and_normalisePath (wd : string) (a : option string) (p : string) :
  starts_with_slash wd = true ->
  js_and a (normalisePath wd) = Some p ->
  p = "" \/ starts_with_slash p = true.
Proof.
  intros Hwd. unfold js_and. destruct a as [s|]; [|discriminate].
  destruct (String.eqb_spec s "") as [->|Hs]; intros H; inversion H.
  - now left.
  - right. unfold normalisePath.
    destruct (starts_with_slash s) eqn:E; [exact E|].
    apply resolve_absolute. exact Hwd.
Qed.

(** X13. In a process whose working directory is absolute, the file and the
    directory of the resolved configuration are absolute paths, unless they
    are empty or missing: [uploadFile] and [listFiles] are never given a
    relative path. *)
Theorem resolveConfig_paths (wd : string) (load : string -> option RawConfig)
  (cliConfig : option string) (cli r : RawConfig) :
  starts_with_slash wd = true ->
  resolveConfig wd load cliConfig cli = Returns r ->
  (forall d, raw_directory r = Some d -> d = "" \/ starts_with_slash d = true) /\
  (forall f, raw_file r = Some f -> f = "" \/ starts_with_slash f = true).
Proof.
  unfold resolveConfig, handleError. intros Hwd H.
  destruct (js_or cliConfig None) as [p|].
  - destruct (load _) as [ff|]; [|discriminate H].
    injection H as <-. cbn. split; intros x Hx;
      exact (js_and_normalisePath wd _ x Hwd Hx).
  - injection H as <-. cbn. split; intros x Hx;
      exact (js_and_normalisePath wd _ x Hwd Hx).
Qed.

Lemma resolveConfig_paths_witness :
  exists r,
    resolveConfig "/home/u" Tree.load (Some "config.json") Tree.cli = Returns r
    /\ raw_directory r = Some "/home/u/scans"
    /\ ("/home/u/scans" = "" \/ starts_with_slash "/home/u/scans" = true).
Proof.
  eexists. split; [reflexivity|]. split; [reflexivity|].
  exact (proj1 (resolveConfig_paths "/home/u" Tree.load (Some "config.json")
                  Tree.cli _ eq_refl eq_refl) "/home/u/scans" eq_refl).
Defined.

(** X14. A non-empty value given on the command line is never replaced by
    the one of the configuration file: the resolved configuration has it as
    it is, a path made absolute, the host with its final [/]. *)
Theorem resolveConfig_cli_wins (wd : string)
  (load : string -> option RawConfig) (cliConfig : option string)
  (cli r : RawConfig) :
  resolveConfig wd load cliConfig cli = Returns r ->
  (forall s, raw_action cli = Some s -> s <> "" -> raw_action r = Some s) /\
  (forall s, raw_output cli = Some s -> s <> "" -> raw_output r = Some s) /\
  (forall s, raw_appKey cli = Some s -> s <> "" -> raw_appKey r = Some s) /\
  (forall s, raw_appId cli = Some s -> s <> "" -> raw_appId r = Some s) /\
  (forall s, raw_directory cli = Some s -> s <> "" ->
             raw_directory r = Some (normalisePath wd s)) /\
  (forall s, raw_file cli = Some s -> s <> "" ->
             raw_file r = Some (normalisePath wd s)) /\
  (forall s, raw_host cli = Some s -> s <> "" ->
             raw_host r = Some (normaliseHost (Some s))).
Proof.
  assert (J : forall s b, s <> "" -> js_or (Some s) b = Some s).
  { intros s b Hs. unfold js_or. apply String.eqb_neq in Hs. now rewrite Hs. }
  assert (A : forall s, s <> "" ->
                        js_and (Some s) (normalisePath wd)
                        = Some (normalisePath wd s)).
  { intros s Hs. unfold js_and. apply String.eqb_neq in Hs. now rewrite Hs. }
  unfold resolveConfig, handleError. intros H.
  destruct (js_or cliConfig None) as [p|].
  - destruct (load _) as [ff|]; [|discriminate H].
    injection H as <-. cbn.
    repeat split; intros s E Hs; rewrite E; rewrite ?J by exact Hs;
      try reflexivity; apply A; exact Hs.
  - injection H as <-. cbn.
    repeat split; intros s E Hs; rewrite E; try reflexivity;
      apply A; exact Hs.
Qed.

Lemma resolveConfig_cli_wins_witness :
  exists r,
    resolveConfig "/home/u" Tree.load (Some "config.json") Tree.cli = Returns r
    /\ raw_action r = Some "readKYC"
    /\ raw_directory r = Some (normalisePath "/home/u" "scans").
Proof.
  eexists. split; [reflexivity|].
  destruct (resolveConfig_cli_wins "/home/u" Tree.load (Some "config.json")
              Tree.cli _ eq_refl) as (Ha & _ & _ & _ & Hd & _).
  split.
  - apply (Ha "readKYC" eq_refl). discriminate.
  - apply (Hd "scans" eq_refl). discriminate.
Defined.

(** ** The batch *)

Module BatchFacts.

Lemma requests_app (a b : list Event) :
  requests (a ++ b) = requests a ++ requests b.
Proof.
  induction a as [|e a IH]; [reflexivity|].
  destruct e; cbn; rewrite IH; reflexivity.
Qed.

Lemma indexed_In (fs : list string) :
  forall idx i f,
    In (i, f) (indexed idx fs) ->
    idx <= i /\ nth_error fs (i - idx) = Some f.
Proof.
  induction fs as [|f0 r IH]; intros idx i f H; [destruct H|].
  cbn in H. destruct H as [H|H].
  - inversion H. subst. rewrite Nat.sub_diag. split; [lia | reflexivity].
  - destruct (IH _ _ _ H) as [Hle Hn]. split; [lia|].
    replace (i - idx) with (S (i - S idx)) by lia. exact Hn.
Qed.

Lemma firstn_In {A : Type} (k : nat) (l : list A) (x : A) :
  In x (firstn k l) -> In x l.
Proof.
  intros H. rewrite <- (firstn_skipn k l). apply in_or_app. now left.
Qed.

Section Loop.

Variable c : Config.
Variable w : World.
Variable n : nat.

Lemma requests_flush_of (errs ress : list UploadOutcome) :
  requests (flush_of n errs ress) = [].
Proof. unfold flush_of. destruct (Nat.eqb _ _); reflexivity. Qed.

Lemma serial_resolves_request (idx : nat) (f : string) (r : list string)
  (errs ress : list UploadOutcome) (tr : list Event) (o : UploadOutcome) :
  uploadFile c w idx f (action c) = Returns o ->
  exists req,
    uploadFile_request c w f (action c) = Returns req /\
    serial c w n idx (f :: r) errs ress tr
    = serial c w n (S idx) r
        (if err_present o then errs ++ [o] else errs)
        (if err_present o then ress else ress ++ [o])
        (tr ++ [EvUpload idx f; EvRequest idx req; EvResolved idx o]
            ++ flush_of n (if err_present o then errs ++ [o] else errs)
                        (if err_present o then ress else ress ++ [o])).
Proof.
  unfold uploadFile. cbn [serial].
  destruct (uploadFile_request c w f (action c)) as [req| | |];
    try discriminate.
  destruct (request_callback _ _ _) as [o'|]; [|discriminate].
  intros H. inversion H. subst o'. exists req. split; reflexivity.
Qed.

Lemma serial_throws (idx : nat) (f : string) (r : list string)
  (errs ress : list UploadOutcome) (tr : list Event) :
  uploadFile c w idx f (action c) = Throws ->
  exists req,
    uploadFile_request c w f (action c) = Returns req /\
    serial c w n idx (f :: r) errs ress tr
    = mkObserved errs ress (tr ++ [EvUpload idx f; EvRequest idx req]) Crashed.
Proof.
  unfold uploadFile. cbn [serial].
  destruct (uploadFile_request_cases c w f (action c))
    as [[req E] | [code E]]; rewrite E; [|discriminate].
  destruct (request_callback _ _ _) as [o'|]; [discriminate|].
  intros _. exists req. split; reflexivity.
Qed.

Lemma serial_buckets (fs : list string) :
  forall (idx : nat) (errs ress : list UploadOutcome) (tr : list Event),
    resolves_all c w idx fs = true ->
    let ob := serial c w n idx fs errs ress tr in
    ob_errors ob = errs ++ filter err_present (outcomes c w idx fs) /\
    ob_results ob
    = ress ++ filter (fun o => negb (err_present o)) (outcomes c w idx fs) /\
    length (outcomes c w idx fs) = length fs.
Proof.
  induction fs as [|f r IH]; intros idx errs ress tr Hall; cbv zeta.
  - cbn. rewrite !app_nil_r. repeat split.
  - cbn [resolves_all outcomes] in *.
    destruct (uploadFile c w idx f (action c)) as [o| | |] eqn:U;
      try discriminate Hall.
    destruct (serial_resolves c w n idx f r errs ress tr o U) as [req ->].
    match goal with
    | |- context [serial c w n (S idx) r ?e ?s ?t] =>
        destruct (IH (S idx) e s t Hall) as (I1 & I2 & I3)
    end.
    rewrite I1, I2. cbn [filter length].
    destruct (err_present o); cbn [negb];
      rewrite <- ?app_assoc; cbn [app]; repeat split; now rewrite I3.
Qed.

Lemma serial_first_throw (fs : list string) :
  forall (idx : nat) (errs ress : list UploadOutcome) (tr : list Event)
         (i : nat) (f : string),
    nth_error fs i = Some f ->
    resolves_all c w idx (firstn i fs) = true ->
    uploadFile c w (idx + i) f (action c) = Throws ->
    length errs + length ress = idx ->
    idx + length fs = n ->
    let ob := serial c w n idx fs errs ress tr in
    ob_status ob = Crashed /\
    uploads (ob_trace ob) = uploads tr ++ indexed idx (firstn (S i) fs) /\
    writes (ob_trace ob) = writes tr /\
    length (ob_errors ob) + length (ob_results ob) = idx + i.
Proof.
  induction fs as [|f0 r IH];
    intros idx errs ress tr i f Hi Hall Hex Hcnt Hn; cbv zeta.
  - destruct i; discriminate Hi.
  - cbn [length] in Hn. destruct i as [|i].
    + cbn in Hi. inversion Hi. subst f0.
      rewrite Nat.add_0_r in Hex.
      destruct (serial_throws idx f r errs ress tr Hex) as (req & _ & ->).
      cbn [ob_status ob_trace ob_errors ob_results firstn indexed].
      rewrite uploads_app, writes_app. cbn. rewrite app_nil_r.
      repeat split. lia.
    + cbn [nth_error] in Hi. cbn [firstn resolves_all] in Hall.
      destruct (uploadFile c w idx f0 (action c)) as [o| | |] eqn:U;
        try discriminate Hall.
      destruct (serial_resolves c w n idx f0 r errs ress tr o U) as [req ->].
      pose proof (pushed_count (err_present o) errs ress o) as Hc.
      assert (Hlen : i < length r)
        by (apply nth_error_Some; rewrite Hi; discriminate).
      match goal with
      | |- context [serial c w n (S idx) r ?e ?s ?t] =>
          destruct (IH (S idx) e s t i f Hi Hall) as (I1 & I2 & I3 & I4);
          [ replace (S idx + i) with (idx + S i) by lia; exact Hex
          | lia | lia | ]
      end.
      split; [exact I1|]. split.
      { rewrite I2, uploads_app. cbn [app uploads indexed firstn].
        rewrite uploads_flush_of, <- app_assoc. reflexivity. }
      split; [|lia].
      rewrite I3, writes_app. cbn [app writes].
      unfold flush_of. rewrite Hc.
      replace (Nat.eqb (S (length errs + length ress)) n) with false
        by (symmetry; apply Nat.eqb_neq; lia).
      cbn. now rewrite app_nil_r.
Qed.

Lemma serial_requests (fs : list string) :
  forall (idx : nat) (errs ress : list UploadOutcome) (tr : list Event)
         (i : nat) (req : Request),
    In (i, req) (requests (ob_trace (serial c w n idx fs errs ress tr))) ->
    In (i, req) (requests tr) \/
    exists f, In (i, f) (indexed idx fs) /\
              uploadFile_request c w f (action c) = Returns req.
Proof.
  induction fs as [|f r IH]; intros idx errs ress tr i req H.
  - left. exact H.
  - destruct (uploadFile c w idx f (action c)) as [o| | |] eqn:U.
    + destruct (serial_resolves_request idx f r errs ress tr o U)
        as (rq & Hrq & E).
      rewrite E in H. apply IH in H as [H | (f' & Hin & Hr)].
      * rewrite requests_app in H. cbn [app requests] in H.
        rewrite requests_flush_of in H.
        apply in_app_or in H as [H | [H | []]]; [now left|].
        inversion H. subst. right. exists f. split; [now left | exact Hrq].
      * right. exists f'. split; [now right | exact Hr].
    + destruct (serial_throws idx f r errs ress tr U) as (rq & Hrq & E).
      rewrite E in H. cbn [ob_trace] in H. rewrite requests_app in H.
      apply in_app_or in H as [H | [H | []]]; [now left|].
      inversion H. subst. right. exists f. split; [now left | exact Hrq].
    + rewrite (serial_exits c w n idx f r errs ress tr code U) in H.
      cbn [ob_trace] in H. rewrite requests_app in H. cbn in H.
      rewrite app_nil_r in H. now left.
    + exfalso. unfold uploadFile in U.
      destruct (uploadFile_request_cases c w f (action c))
        as [[rq E] | [code E]]; rewrite E in U; [|discriminate].
      destruct (request_callback _ _ _); discriminate.
Qed.

End Loop.
End BatchFacts.

Import BatchFacts.

Lemma observed_run (c : Config) (w : World) (files : list string)
  (cs : list nat) :
  8 * length files <= length cs ->
  let st := run c w files cs (boot files) in
  let ob := serial c w (length files) 0 files [] [] [] in
  status st = ob_status ob /\ trace st = ob_trace ob /\
  errors st = ob_errors ob /\ results st = ob_results ob.
Proof.
  intros Hcs. cbv zeta. pose proof (run_boot c w files cs Hcs) as B.
  repeat split; rewrite <- B; reflexivity.
Qed.

(** X15. When every upload resolves and the run is given its turns, the two
    lists hold the outcomes in the order of the file list: [errors] the
    outcomes whose [err] is set, [results] the others, and every file has
    its outcome in one of the two. *)
Theorem batch_buckets_in_order (c : Config) (w : World)
  (files : list string) (cs : list nat) :
  resolves_all c w 0 files = true ->
  8 * length files <= length cs ->
  let st := run c w files cs (boot files) in
  errors st = filter err_present (outcomes c w 0 files) /\
  results st = filter (fun o => negb (err_present o)) (outcomes c w 0 files) /\
  length (outcomes c w 0 files) = length files.
Proof.
  intros Hall Hcs. cbv zeta.
  destruct (observed_run c w files cs Hcs) as (_ & _ & He & Hr).
  destruct (serial_buckets c w (length files) files 0 [] [] [] Hall)
    as (B1 & B2 & B3).
  rewrite He, Hr. repeat split; assumption.
Qed.



(** X16. Whatever the environment does and whenever the run is looked at, a
    [BatchResult] that has been written is the complete one: every upload
    of the list has resolved, and the two lists written hold all the
    outcomes, in the order of the file list. A partial result is never
    written. *)
Theorem batch_writes_complete_result (c : Config) (w : World)
  (files : list string) (cs : list nat) (errs ress : list UploadOutcome) :
  In (errs, ress) (writes (trace (run c w files cs (boot files)))) ->
  resolves_all c w 0 files = true /\
  errs = filter err_present (outcomes c w 0 files) /\
  ress = filter (fun o => negb (err_present o)) (outcomes c w 0 files).
Proof.
  intros Hin.
  destruct (run_trace_prefix c w files cs) as [suffix E].
  destruct (serial_writes c w (length files) files 0 [] [] [] eq_refl eq_refl)
    as (S1 & _ & S3).
  cbv zeta in S1, S3. cbn [writes app] in S3.
  assert (Hin' : In (errs, ress)
                    (writes (ob_trace (serial c w (length files) 0 files
                                              [] [] []))))
    by (rewrite E, writes_app; apply in_or_app; now left).
  rewrite S3 in Hin'.
  assert (Hrun : ob_status (serial c w (length files) 0 files [] [] [])
                 = Running /\
                 (errs, ress)
                 = (ob_errors (serial c w (length files) 0 files [] [] []),
                    ob_results (serial c w (length files) 0 files [] [] []))).
  { destruct files as [|f r]; [destruct Hin'|].
    destruct (ob_status _); cbn in Hin'; try contradiction.
    destruct Hin' as [Hin'|[]]. split; [reflexivity | now symmetry]. }
  destruct Hrun as [Hs Hp]. apply S1 in Hs. split; [exact Hs|].
  destruct (serial_buckets c w (length files) files 0 [] [] [] Hs)
    as (B1 & B2 & _).
  inversion Hp. split; assumption.
Qed.



(** X17. When the reply to an entry has no body, and the uploads before it
    resolved, the batch ends there on the exception: the entries after it
    are never attempted, the outcomes collected so far stay in the two
    lists and nothing is written. *)
Theorem batch_ends_on_reply_without_body (c : Config) (w : World)
  (files : list string) (cs : list nat) (i : nat) (f : string) :
  8 * length files <= length cs ->
  nth_error files i = Some f ->
  resolves_all c w 0 (firstn i files) = true ->
  uploadFile c w i f (action c) = Throws ->
  let st := run c w files cs (boot files) in
  status st = Crashed /\
  uploads (trace st) = indexed 0 (firstn (S i) files) /\
  writes (trace st) = [] /\
  length (errors st) + length (results st) = i.
Proof.
  intros Hcs Hi Hall Hthrow. cbv zeta.
  destruct (observed_run c w files cs Hcs) as (Hs & Ht & He & Hr).
  rewrite Hs, Ht, He, Hr.
  exact (serial_first_throw c w (length files) files 0 [] [] [] i f
           Hi Hall Hthrow eq_refl eq_refl).
Qed.



Lemma uploadFile_request_credentials (c : Config) (w : World)
  (f act : string) (req : Request) :
  uploadFile_request c w f act = Returns req ->
  appId c <> "" /\ appKey c <> "".
Proof.
  unfold uploadFile_request, handleError. cbn [truthy].
  destruct (negb (supportedFileExtensions_test _)); [discriminate|].
  destruct (statSync_isFile w f); [|discriminate].
  destruct (String.eqb_spec (appId c) "");
    destruct (String.eqb_spec (appKey c) ""); cbn; try discriminate.
  intros _. split; assumption.
Qed.

(** X18. Whatever the environment does and whenever the run is looked at,
    every request that has been made is the request of an entry of the file
    list: a POST to [host + action] that carries that file and the
    credentials of the configuration, which are not empty. With a missing
    credential no request is ever made. *)
Theorem batch_requests_are_guarded (c : Config) (w : World)
  (files : list string) (cs : list nat) (i : nat) (req : Request) :
  In (i, req) (requests (trace (run c w files cs (boot files)))) ->
  nth_error files i = Some (formFile req) /\
  url req = (host c ++ action c)%string /\ method req = "POST" /\
  header_appid req = appId c /\ header_appkey req = appKey c /\
  appId c <> "" /\ appKey c <> "".
Proof.
  intros Hin.
  destruct (run_trace_prefix c w files cs) as [suffix E].
  assert (Hin' : In (i, req)
                    (requests (ob_trace (serial c w (length files) 0 files
                                                [] [] []))))
    by (rewrite E, requests_app; apply in_or_app; now left).
  apply serial_requests in Hin' as [[] | (f & Hf & Hr)].
  apply indexed_In in Hf as [_ Hf]. rewrite Nat.sub_0_r in Hf.
  destruct (uploadFile_request_credentials c w f (action c) req Hr)
    as [Hid Hkey].
  apply uploadFile_request_inv in Hr as [-> _]. cbn.
  repeat split; assumption.
Qed.



(** X19. In the directory branch on an absolute directory, every upload
    that is ever started is the upload of a path that [listFiles] returned:
    an absolute path that passes the test of the supported extensions. *)
Theorem directoryBranch_uploads_discovered (c : Config) (w : World)
  (dir : string) (fuel : nat) (cs : list nat) (st : State)
  (i : nat) (f : string) :
  starts_with_slash dir = true ->
  directoryBranch c w dir fuel cs = Returns st ->
  In (i, f) (uploads (trace st)) ->
  exists files,
    listFiles fuel w dir = Returns files /\ nth_error files i = Some f /\
    starts_with_slash f = true /\ supportedFileExtensions_test f = true.
Proof.
  intros Hd H Hin. unfold directoryBranch, handleError in H.
  destruct (listFiles fuel w dir) as [files| | |] eqn:L; try discriminate H.
  injection H as <-. exists files. split; [reflexivity|].
  destruct (run_trace_prefix c w files cs) as [suffix E].
  destruct (serial_uploads c w (length files) files 0 [] [] []) as [k U].
  rewrite E, uploads_app in U. cbn [uploads app] in U.
  apply firstn_prefix in U. rewrite U in Hin.
  apply firstn_In, indexed_In in Hin as [_ Hf]. rewrite Nat.sub_0_r in Hf.
  split; [exact Hf|].
  apply nth_error_In in Hf.
  exact (proj1 (Forall_forall _ _)
               (listFiles_discoverable fuel w dir files Hd L) f Hf).
Qed.



Lemma batch_buckets_in_order_witness :
  let files := ["/d/a.png"; "/d/scan.PNG"] in
  let st := run Samples.config Samples.world_first_rejected files (repeat 0 16)
                (boot files) in
  errors st
  = filter err_present
           (outcomes Samples.config Samples.world_first_rejected 0 files)
  /\ results st
     = filter (fun o => negb (err_present o))
              (outcomes Samples.config Samples.world_first_rejected 0 files)
  /\ length (outcomes Samples.config Samples.world_first_rejected 0 files) = 2.
Proof.
  exact (batch_buckets_in_order Samples.config Samples.world_first_rejected
           ["/d/a.png"; "/d/scan.PNG"] (repeat 0 16) eq_refl
           (proj1 (Nat.leb_le 16 16) eq_refl)).
Defined.

Lemma batch_writes_complete_result_witness :
  let files := ["/d/a.png"; "/d/scan.PNG"] in
  let st := run Samples.config Samples.world_first_rejected files (repeat 0 16)
                (boot files) in
  resolves_all Samples.config Samples.world_first_rejected 0 files = true /\
  errors st
  = filter err_present
           (outcomes Samples.config Samples.world_first_rejected 0 files) /\
  results st
  = filter (fun o => negb (err_present o))
           (outcomes Samples.config Samples.world_first_rejected 0 files).
Proof.
  cbv zeta.
  refine (batch_writes_complete_result Samples.config
            Samples.world_first_rejected ["/d/a.png"; "/d/scan.PNG"]
            (repeat 0 16) _ _ _).
  vm_compute. left. reflexivity.
Defined.

Lemma batch_ends_on_reply_without_body_witness :
  let files := ["/in/a.png"; "/in/sub/b.JPG"] in
  let st := run Samples.config Tree.world_unreachable files (repeat 0 16)
                (boot files) in
  status st = Crashed /\
  uploads (trace st) = [(0, "/in/a.png")] /\
  writes (trace st) = [] /\
  length (errors st) + length (results st) = 0.
Proof.
  exact (batch_ends_on_reply_without_body Samples.config
           Tree.world_unreachable ["/in/a.png"; "/in/sub/b.JPG"] (repeat 0 16)
           0 "/in/a.png" (proj1 (Nat.leb_le 16 16) eq_refl)
           eq_refl eq_refl eq_refl).
Defined.

Lemma batch_requests_are_guarded_witness :
  let files := ["/d/a.png"; "/d/scan.PNG"] in
  let req :=
    mkRequest "https://ind-docs.hyperverge.co/v2.0/readPAN" "POST" "png"
              "/d/a.png" "id-012345" "key-0123456789" "application/json" in
  requests (trace (run Samples.config Samples.world files [0] (boot files)))
  = [(0, req)]
  /\ nth_error files 0 = Some (formFile req)
  /\ header_appkey req = "key-0123456789".
Proof.
  cbv zeta. split; [reflexivity|].
  assert (Hin : In (0, mkRequest "https://ind-docs.hyperverge.co/v2.0/readPAN"
                         "POST" "png" "/d/a.png" "id-012345" "key-0123456789"
                         "application/json")
                   (requests (trace (run Samples.config Samples.world
                                         ["/d/a.png"; "/d/scan.PNG"] [0]
                                         (boot ["/d/a.png"; "/d/scan.PNG"])))))
    by (vm_compute; left; reflexivity).
  destruct (batch_requests_are_guarded Samples.config Samples.world
              ["/d/a.png"; "/d/scan.PNG"] [0] 0 _ Hin)
    as (H1 & _ & _ & _ & H2 & _).
  split; [exact H1 | exact H2].
Defined.

Lemma directoryBranch_uploads_discovered_witness :
  exists files,
    listFiles 2 Tree.world "/in" = Returns files /\
    nth_error files 1 = Some "/in/sub/b.JPG" /\
    starts_with_slash "/in/sub/b.JPG" = true /\
    supportedFileExtensions_test "/in/sub/b.JPG" = true.
Proof.
  assert (Hin : In (1, "/in/sub/b.JPG")
                   (uploads (trace (run Samples.config Tree.world
                                        ["/in/a.png"; "/in/sub/b.JPG"]
                                        (repeat 0 10)
                                        (boot ["/in/a.png"; "/in/sub/b.JPG"])))))
    by (vm_compute; right; left; reflexivity).
  exact (directoryBranch_uploads_discovered Samples.config Tree.world "/in" 2
           (repeat 0 10)
           (run Samples.config Tree.world ["/in/a.png"; "/in/sub/b.JPG"]
                (repeat 0 10) (boot ["/in/a.png"; "/in/sub/b.JPG"]))
           1 "/in/sub/b.JPG" eq_refl eq_refl Hin).
Defined.

Lemma reduce_listFiles_all_return (step : string -> Completion (list string))
  (dirs : list string) :
  forall acc,
    Forall (fun d => exists r, step d = Returns r) dirs ->
    exists res,
      fold_left
        (fun prev curr =>
           match prev with
           | Returns l =>
               match step curr with
               | Returns l' => Returns (l ++ l')
               | o => o
               end
           | o => o
           end) dirs (Returns acc) = Returns res.
Proof.
  induction dirs as [|d r IH]; intros acc H.
  - exists acc. reflexivity.
  - inversion H as [|? ? [l Hl] Hr]; subst. cbn. rewrite Hl. apply IH, Hr.
Qed.

(** X20. No partial listing: when a subdirectory cannot be read, while the
    directory itself and the subdirectories before it can, [listFiles]
    throws as a whole, and the directory branch ends in [handleError] with
    exit code 104 before any upload. *)
Theorem unreadable_subdirectory_is_fatal (c : Config) (w : World)
  (d : string) (fuel : nat) (cs : list nat)
  (entries filePaths before after : list string) (sub : string) :
  readdirSync w d = Some entries ->
  filter_isFile w (map (fun e => NodePath.join [d; e]) entries)
  = Some filePaths ->
  filter (fun p => negb (includes filePaths p))
         (map (fun e => NodePath.join [d; e]) entries)
  = before ++ sub :: after ->
  Forall (fun s => exists r, listFiles fuel w s = Returns r) before ->
  listFiles fuel w sub = Throws ->
  listFiles (S fuel) w d = Throws /\
  directoryBranch c w d (S fuel) cs = Exits 104.
Proof.
  intros Hr Hf Hd Hb Hs.
  assert (L : listFiles (S fuel) w d = Throws).
  { cbn [listFiles]. rewrite Hr, Hf, Hd, fold_left_app.
    destruct (reduce_listFiles_all_return (listFiles fuel w) before [] Hb)
      as [res ->].
    cbn [fold_left]. rewrite Hs.
    rewrite reduce_listFiles_stuck by discriminate. reflexivity. }
  split; [exact L|]. unfold directoryBranch. rewrite L. reflexivity.
Qed.

Lemma unreadable_subdirectory_is_fatal_witness :
  listFiles 2 Tree.world_locked "/in" = Throws /\
  directoryBranch Samples.config Tree.world_locked "/in" 2 (repeat 0 16)
  = Exits 104.
Proof.
  exact (unreadable_subdirectory_is_fatal Samples.config Tree.world_locked
           "/in" 1 (repeat 0 16) ["a.png"; "sub"; "readme.md"]
           ["/in/a.png"; "/in/readme.md"] [] [] "/in/sub"
           eq_refl eq_refl eq_refl (Forall_nil _) eq_refl).
Defined.

Lemma bootLog_hides_middle_witness :
  bootLog Tree.render (String.concat " ")
          (mkConfig "readPAN" None (Some "/d") "" "key-0123456789" "id-012345"
                    "https://h/")
  = bootLog Tree.render (String.concat " ")
            (mkConfig "readPAN" None (Some "/d") "" "keXXXXXXXXXX89"
                      "id-----45" "https://h/").
Proof.
  exact (bootLog_hides_middle Tree.render (String.concat " ")
           "readPAN" None (Some "/d") "" "https://h/"
           "key-0123456789" "keXXXXXXXXXX89" "id-012345" "id-----45"
           (proj1 same_ends_sample) (proj2 same_ends_sample)).
Defined.
